(** * Form Walker: a shallow embedding of [fill_first_page.py]

    The script drives a browser through an eight-page survey form for each
    person record of [persons.json].  The browser-automation driver, the
    pseudo-random generator and the iteration order of Python sets are the
    script's external collaborators: they appear here as records of
    operations ([Driver], [Random], [Hashing]) over which every definition is
    parametrised.  A computation is a function from the machine state (the
    driver's world and the generator's state) to an outcome (a value or a
    raised exception), the next state and the events it emitted: every driver
    call and every console line, in program order. *)

From Stdlib Require Import List String Ascii ZArith Lia Bool Arith Permutation.
From Stdlib Require Import DecimalString.
Import ListNotations.

Open Scope string_scope.

(** ** Python values *)

(** The exceptions the script distinguishes: [PlaywrightTimeoutError], which
    some handlers name, and every other subclass of [Exception].  Both carry
    the text that [str(e)] yields. *)
Inductive exn : Type :=
| PlaywrightTimeoutError (msg : string)
| PyException (msg : string).

Definition exn_str (e : exn) : string :=
  match e with
  | PlaywrightTimeoutError msg => msg
  | PyException msg => msg
  end.

(** Scalar values of a person record, as [json.loads] produces them.  A float
    is kept by the text [str] gives for it. *)
Inductive pyvalue : Type :=
| PyStr (s : string)
| PyInt (z : Z)
| PyBool (b : bool)
| PyNone
| PyFloat (repr : string).

Definition str_of_nat (n : nat) : string :=
  NilZero.string_of_uint (Nat.to_uint n).

Definition str_of_Z (z : Z) : string :=
  NilZero.string_of_int (Z.to_int z).

(** [str(value)] *)
Definition py_str (v : pyvalue) : string :=
  match v with
  | PyStr s => s
  | PyInt z => str_of_Z z
  | PyBool true => "True"
  | PyBool false => "False"
  | PyNone => "None"
  | PyFloat repr => repr
  end.

(** A person record: the items of the dict, in the dict's order. *)
Definition person : Type := list (string * pyvalue).

(** An element handle returned by the driver. *)
Definition handle : Type := nat.

(** Truth value of an attribute: [None] and the empty string are falsy. *)
Definition attr_truthy (a : option string) : bool :=
  match a with
  | None => false
  | Some EmptyString => false
  | Some (String _ _) => true
  end.

(** The string of an attribute that is present. *)
Definition attr_text (a : option string) : string :=
  match a with
  | Some s => s
  | None => EmptyString
  end.

(** Truth value of [page.query_selector(...)]: a handle or [None]. *)
Definition found (h : option handle) : bool :=
  match h with
  | Some _ => true
  | None => false
  end.

(** ** Outcomes and events *)

Inductive outcome (A : Type) : Type :=
| Ret (a : A)
| Raise (e : exn).
Arguments Ret {A} a.
Arguments Raise {A} e.

(** What the script does to the outside: the driver calls it issues and the
    lines it prints. *)
Inductive event : Type :=
| EStart
| EStop
| ELaunch (headless : bool)
| ENewPage
| EGoto (url : string) (timeout : Z)
| EWaitForSelector (selector : string) (timeout : Z)
| EWaitForTimeout (ms : Z)
| EQuerySelector (selector : string)
| EQuerySelectorAll (selector : string)
| EGetAttribute (elem : handle) (attr : string)
| EFill (selector value : string)
| ESelectOption (selector value : string)
| ECheck (selector : string)
| EClick (selector : string) (timeout : Z)
| EClose
| EPrint (line : string)
| EInput (prompt : string).

(** ** External collaborators *)

(** The browser driver: each primitive answers from the current world and
    moves it.  Any primitive may raise. *)
Record Driver (W : Type) : Type := {
  d_launch : bool -> W -> outcome unit * W;
  d_new_page : W -> outcome unit * W;
  d_goto : string -> Z -> W -> outcome unit * W;
  d_wait_for_selector : string -> Z -> W -> outcome unit * W;
  d_wait_for_timeout : Z -> W -> outcome unit * W;
  d_query_selector : string -> W -> outcome (option handle) * W;
  d_query_selector_all : string -> W -> outcome (list handle) * W;
  d_get_attribute : handle -> string -> W -> outcome (option string) * W;
  d_fill : string -> string -> W -> outcome unit * W;
  d_select_option : string -> string -> W -> outcome unit * W;
  d_check : string -> W -> outcome unit * W;
  d_click : string -> Z -> W -> outcome unit * W;
  d_close : W -> outcome unit * W;
  d_input : string -> W -> outcome unit * W
}.
Arguments d_launch {W}. Arguments d_new_page {W}. Arguments d_goto {W}.
Arguments d_wait_for_selector {W}. Arguments d_wait_for_timeout {W}.
Arguments d_query_selector {W}. Arguments d_query_selector_all {W}.
Arguments d_get_attribute {W}. Arguments d_fill {W}.
Arguments d_select_option {W}. Arguments d_check {W}. Arguments d_click {W}.
Arguments d_close {W}. Arguments d_input {W}.

(** The module-level generator behind [random.choice]: [randbelow n] draws an
    index below [n] and advances the generator. *)
Record Random (R : Type) : Type := {
  randbelow : nat -> R -> nat * R;
  randbelow_lt : forall n r, 0 < n -> fst (randbelow n r) < n
}.
Arguments randbelow {R}. Arguments randbelow_lt {R}.

(** A Python [set] of strings is kept by its members in insertion order;
    [list(s)] enumerates them in an order fixed by the interpreter's string
    hashing, which is no part of the generator's seed. *)
Record Hashing : Type := {
  set_iter : list string -> list string;
  set_iter_perm : forall s, Permutation (set_iter s) s
}.

(** ** Strings the script builds *)

Definition dq : string := String "034"%char EmptyString.
Definition nl : string := String "010"%char EmptyString.

Definition SITE_URL : string := "https://form.avalform.com/view.php?id=70833985".
Definition PLAYWRIGHT_HEADLESS : bool := false.
Definition DATA_FILE : string := "persons.json".

Definition radio_selector : string := "input[type=" ++ dq ++ "radio" ++ dq ++ "]".
Definition submit_selector : string := "input#submit_primary".
Definition container_selector : string := "#form_container".

Definition selector_input (field_name : string) : string :=
  "input[name=" ++ dq ++ field_name ++ dq ++ "], input#" ++ field_name.

Definition selector_select (field_name : string) : string :=
  "select[name=" ++ dq ++ field_name ++ dq ++ "], select#" ++ field_name.

Definition option_selector (name chosen_value : string) : string :=
  "input[name=" ++ dq ++ name ++ dq ++ "][value=" ++ dq ++ chosen_value ++ dq ++ "]".

Definition label_selector (chosen_id : string) : string :=
  "label[for=" ++ dq ++ chosen_id ++ dq ++ "]".

(** The console lines of the three fillers and of the two submit clicks. *)
Definition warn_no_control (field_name : string) : string :=
  "[WARNING] No input/select found for '" ++ field_name ++ "'.".

Definition err_filling (field_name : string) (value : pyvalue) (e : exn) : string :=
  "[ERROR] Filling '" ++ field_name ++ "' with '" ++ py_str value
    ++ "' failed: " ++ exn_str e.

Definition err_submit_page1 : string :=
  "[ERROR] Could not find/click 'Continue' on page 1.".

Definition warn_value_not_found (name chosen_value : string) : string :=
  "[WARNING] For group '" ++ name ++ "', value=" ++ chosen_value ++ " not found.".

Definition err_checking (selector : string) (e : exn) : string :=
  "[ERROR] Checking '" ++ selector ++ "' failed: " ++ exn_str e.

Definition err_continue : string :=
  "[ERROR] Could not find/click 'Continue' (or 'ارسال') on this page.".

Definition warn_no_label (chosen_id : string) : string :=
  "[WARNING] Label for id '" ++ chosen_id ++ "' not found.".

Definition err_clicking (label_selector : string) (e : exn) : string :=
  "[ERROR] Clicking label '" ++ label_selector ++ "' failed: " ++ exn_str e.

(** The first console line of a turn of the loop over the people. *)
Definition banner (idx : nat) : string :=
  nl ++ "=== Processing person #" ++ str_of_nat idx ++ " ===".

(** The last console line of a turn of the loop over the people. *)
Definition done_line (idx : nat) : string :=
  "=== Person #" ++ str_of_nat idx ++ " done. ===".

(** A console line is a warning or an error by its tag. *)
Definition is_warning (line : string) : bool := String.prefix "[WARNING]" line.
Definition is_error (line : string) : bool := String.prefix "[ERROR]" line.

(** ** Dicts and sets of the two fillers *)

(** A set of values, and the (value, id) pairs of a group. *)
Abbreviation pyset := (list string).
Abbreviation options := (list (string * string)).

Fixpoint mem (v : string) (s : list string) : bool :=
  match s with
  | [] => false
  | x :: s' => if String.eqb v x then true else mem v s'
  end.

(** [s.add(v)] *)
Definition set_add (v : string) (s : pyset) : pyset :=
  if mem v s then s else (s ++ [v])%list.

(** [groups.setdefault(name, empty).<put>(x)] on a dict kept in insertion
    order: an existing key is updated in place, a new key goes last. *)
Fixpoint setdefault_put {A : Type} (put : A -> A) (empty : A) (name : string)
    (groups : list (string * A)) : list (string * A) :=
  match groups with
  | [] => [(name, put empty)]
  | (k, a) :: rest =>
      if String.eqb name k then (k, put a) :: rest
      else (k, a) :: setdefault_put put empty name rest
  end.

Section Walker.

Context {W R : Type}.
Variable D : Driver W.
Variable G : Random R.
Variable H : Hashing.

(** ** The machine *)

Record state : Type := { world : W; gen : R }.

Definition M (A : Type) : Type := state -> outcome A * state * list event.

Definition ret {A : Type} (a : A) : M A := fun st => (Ret a, st, []).

Definition raise {A : Type} (e : exn) : M A := fun st => (Raise e, st, []).

Definition bind {A B : Type} (m : M A) (k : A -> M B) : M B :=
  fun st =>
    match m st with
    | (Ret a, st1, ev1) =>
        match k a st1 with
        | (o, st2, ev2) => (o, st2, (ev1 ++ ev2)%list)
        end
    | (Raise e, st1, ev1) => (Raise e, st1, ev1)
    end.

(** [try: m  except <handled>: h e]: [handles e] tells whether the clause
    names the class of [e]. *)
Definition try_except {A : Type} (m : M A) (handles : exn -> bool)
    (h : exn -> M A) : M A :=
  fun st =>
    match m st with
    | (Ret a, st1, ev1) => (Ret a, st1, ev1)
    | (Raise e, st1, ev1) =>
        if handles e then
          match h e st1 with
          | (o, st2, ev2) => (o, st2, (ev1 ++ ev2)%list)
          end
        else (Raise e, st1, ev1)
    end.

(** [except PlaywrightTimeoutError] *)
Definition is_timeout (e : exn) : bool :=
  match e with
  | PlaywrightTimeoutError _ => true
  | PyException _ => false
  end.

(** [except Exception] and the bare [except] *)
Definition any_exception (e : exn) : bool := true.

(** A driver call: the event is emitted, the driver answers. *)
Definition invoke {A : Type} (ev : event) (f : W -> outcome A * W) : M A :=
  fun st =>
    match f (world st) with
    | (o, w) => (o, {| world := w; gen := gen st |}, [ev])
    end.

Definition print (line : string) : M unit :=
  fun st => (Ret tt, st, [EPrint line]).

Notation "x <- m ;; k" := (bind m (fun x => k))
  (at level 61, m at next level, right associativity).
Notation "m ;; k" := (bind m (fun _ => k))
  (at level 61, right associativity).

(** The page object's methods, the browser's and the console's. *)
Definition launch (headless : bool) : M unit :=
  invoke (ELaunch headless) (d_launch D headless).
Definition new_page : M unit := invoke ENewPage (d_new_page D).
Definition goto (url : string) (timeout : Z) : M unit :=
  invoke (EGoto url timeout) (d_goto D url timeout).
Definition wait_for_selector (selector : string) (timeout : Z) : M unit :=
  invoke (EWaitForSelector selector timeout) (d_wait_for_selector D selector timeout).
Definition wait_for_timeout (ms : Z) : M unit :=
  invoke (EWaitForTimeout ms) (d_wait_for_timeout D ms).
Definition query_selector (selector : string) : M (option handle) :=
  invoke (EQuerySelector selector) (d_query_selector D selector).
Definition query_selector_all (selector : string) : M (list handle) :=
  invoke (EQuerySelectorAll selector) (d_query_selector_all D selector).
Definition get_attribute (elem : handle) (attr : string) : M (option string) :=
  invoke (EGetAttribute elem attr) (d_get_attribute D elem attr).
Definition fill (selector value : string) : M unit :=
  invoke (EFill selector value) (d_fill D selector value).
Definition select_option (selector value : string) : M unit :=
  invoke (ESelectOption selector value) (d_select_option D selector value).
Definition check (selector : string) : M unit :=
  invoke (ECheck selector) (d_check D selector).
Definition click (selector : string) (timeout : Z) : M unit :=
  invoke (EClick selector timeout) (d_click D selector timeout).
Definition browser_close : M unit := invoke EClose (d_close D).
Definition input (prompt : string) : M unit :=
  invoke (EInput prompt) (d_input D prompt).

(** [random.choice(seq)]: [seq[randbelow(len(seq))]], an [IndexError] on the
    empty sequence. *)
Definition random_choice {A : Type} (seq : list A) : M A :=
  fun st =>
    match seq with
    | [] => (Raise (PyException "Cannot choose from an empty sequence"), st, [])
    | d :: _ =>
        match randbelow G (List.length seq) (gen st) with
        | (k, g) => (Ret (nth k seq d), {| world := world st; gen := g |}, [])
        end
    end.

(** ** [fill_first_page] *)

(** The body of the loop over [person_data.items()]. *)
Definition fill_field (field_name : string) (value : pyvalue) : M unit :=
  let selector_input := selector_input field_name in
  try_except
    (input_elem <- query_selector selector_input ;;
     if found input_elem then fill selector_input (py_str value)
     else
       let selector_select := selector_select field_name in
       select_elem <- query_selector selector_select ;;
       if found select_elem then select_option selector_select (py_str value)
       else print (warn_no_control field_name))
    any_exception
    (fun e => print (err_filling field_name value e)).

Fixpoint fill_fields (person_data : person) : M unit :=
  match person_data with
  | [] => ret tt
  | (field_name, value) :: rest =>
      fill_field field_name value ;; fill_fields rest
  end.

Definition fill_first_page (person_data : person) : M unit :=
  fill_fields person_data ;;
  try_except (click submit_selector 5000) is_timeout
    (fun _ => print err_submit_page1).

(** ** [fill_radio_matrix_page] *)

(** The first loop: [groups] maps a name to the set of its values. *)
Fixpoint collect_values (radio_elements : list handle)
    (groups : list (string * pyset)) : M (list (string * pyset)) :=
  match radio_elements with
  | [] => ret groups
  | elem :: rest =>
      name_attr <- get_attribute elem "name" ;;
      value_attr <- get_attribute elem "value" ;;
      if negb (attr_truthy name_attr) || negb (attr_truthy value_attr)
      then collect_values rest groups
      else collect_values rest
             (setdefault_put (set_add (attr_text value_attr)) []
                (attr_text name_attr) groups)
  end.

(** The body of the second loop. *)
Definition check_group (name : string) (value_set : pyset) : M unit :=
  chosen_value <- random_choice (set_iter H value_set) ;;
  let selector := option_selector name chosen_value in
  try_except
    (control <- query_selector selector ;;
     if found control then check selector
     else print (warn_value_not_found name chosen_value))
    any_exception
    (fun e => print (err_checking selector e)).

Fixpoint check_groups (groups : list (string * pyset)) : M unit :=
  match groups with
  | [] => ret tt
  | (name, value_set) :: rest => check_group name value_set ;; check_groups rest
  end.

Definition fill_radio_matrix_page (timeout : Z) : M unit :=
  appeared <- try_except (wait_for_selector radio_selector timeout ;; ret true)
                is_timeout (fun _ => ret false) ;;
  if appeared then
    radio_elements <- query_selector_all radio_selector ;;
    groups <- collect_values radio_elements [] ;;
    check_groups groups
  else ret tt.

(** ** [click_continue] *)

Definition click_continue : M unit :=
  try_except (click submit_selector 5000) is_timeout
    (fun _ => print err_continue).

(** ** [fill_page_5_or_7] *)

(** The first loop: [groups] maps a name to the list of its (value, id). *)
Fixpoint collect_options (radio_elements : list handle)
    (groups : list (string * options)) : M (list (string * options)) :=
  match radio_elements with
  | [] => ret groups
  | elem :: rest =>
      name_attr <- get_attribute elem "name" ;;
      value_attr <- get_attribute elem "value" ;;
      id_attr <- get_attribute elem "id" ;;
      if negb (attr_truthy name_attr) || negb (attr_truthy value_attr)
         || negb (attr_truthy id_attr)
      then collect_options rest groups
      else collect_options rest
             (setdefault_put
                (fun l => (l ++ [(attr_text value_attr, attr_text id_attr)])%list)
                [] (attr_text name_attr) groups)
  end.

(** The body of the second loop. *)
Definition click_group (name : string) (opts : options) : M unit :=
  chosen <- random_choice opts ;;
  let chosen_id := snd chosen in
  let label_selector := label_selector chosen_id in
  try_except
    (label <- query_selector label_selector ;;
     if found label then click label_selector 5000
     else print (warn_no_label chosen_id))
    any_exception
    (fun e => print (err_clicking label_selector e)).

Fixpoint click_groups (groups : list (string * options)) : M unit :=
  match groups with
  | [] => ret tt
  | (name, opts) :: rest => click_group name opts ;; click_groups rest
  end.

Definition fill_page_5_or_7 : M unit :=
  appeared <- try_except (wait_for_selector radio_selector 5000 ;; ret true)
                is_timeout (fun _ => ret false) ;;
  if appeared then
    radio_elements <- query_selector_all radio_selector ;;
    groups <- collect_options radio_elements [] ;;
    click_groups groups
  else ret tt.

(** ** [main] *)

(** [try: page.wait_for_timeout(1000)  except: pass] *)
Definition pause : M unit :=
  try_except (wait_for_timeout 1000) any_exception (fun _ => ret tt).

(** How one turn of the loop over the people ends: it falls through to the
    next person, or it executes [return] and leaves [main]. *)
Inductive loop_exit : Type :=
| NextPerson
| Returned.

(** The pages after page 1, as the loop body lists them. *)
Definition walk_pages : M unit :=
  (* Page 2 *)
  fill_radio_matrix_page 5000 ;;
  click_continue ;;
  pause ;;
  (* Page 3 *)
  fill_radio_matrix_page 5000 ;;
  click_continue ;;
  pause ;;
  (* Page 4 *)
  fill_radio_matrix_page 5000 ;;
  click_continue ;;
  pause ;;
  (* Page 5 *)
  fill_page_5_or_7 ;;
  click_continue ;;
  pause ;;
  (* Page 6 *)
  fill_radio_matrix_page 5000 ;;
  click_continue ;;
  pause ;;
  (* Page 7 *)
  fill_page_5_or_7 ;;
  click_continue ;;
  pause ;;
  (* Page 8 *)
  fill_radio_matrix_page 5000 ;;
  click_continue.

(** The body of the loop over [enumerate(people, start=1)]. *)
Definition process_person (idx : nat) (person_data : person) : M loop_exit :=
  print (banner idx) ;;
  loaded <- try_except (goto SITE_URL 30000 ;; ret true) is_timeout
              (fun _ => print "[ERROR] Could not load page 1. Check SITE_URL." ;;
                        browser_close ;; ret false) ;;
  if negb loaded then ret Returned
  else
    present <- try_except (wait_for_selector container_selector 10000 ;; ret true)
                 is_timeout
                 (fun _ => print "[ERROR] '#form_container' not found on page 1." ;;
                           browser_close ;; ret false) ;;
    if negb present then ret Returned
    else
      fill_first_page person_data ;;
      pause ;;
      walk_pages ;;
      print (done_line idx) ;;
      ret NextPerson.

Fixpoint people_loop (idx : nat) (people : list person) : M loop_exit :=
  match people with
  | [] => ret NextPerson
  | person_data :: rest =>
      exit <- process_person idx person_data ;;
      match exit with
      | Returned => ret Returned
      | NextPerson => people_loop (S idx) rest
      end
  end.

(** [with sync_playwright() as playwright: body]: the driver process is
    started before the body and stopped when the body is left, however it is
    left. *)
Definition with_sync_playwright (body : M unit) : M unit :=
  fun st =>
    match body st with
    | (o, st1, ev) => (o, st1, ([EStart] ++ ev ++ [EStop])%list)
    end.

(** What [main] finds at [DATA_FILE]: nothing, or a file on which
    [json.loads(DATA_FILE.read_text(encoding="utf-8"))] yields the people or
    raises. *)
Inductive data_file : Type :=
| Absent
| Present (loaded : outcome (list person)).

Definition main (file : data_file) : M unit :=
  match file with
  | Absent => print ("[ERROR] '" ++ DATA_FILE ++ "' not found.")
  | Present loaded =>
      people <- (fun st => (loaded, st, [])) ;;
      with_sync_playwright
        (launch PLAYWRIGHT_HEADLESS ;;
         new_page ;;
         exit <- people_loop 1 people ;;
         match exit with
         | Returned => ret tt
         | NextPerson =>
             input "All done. Press Enter to close the browser..." ;;
             print "Closing browser..." ;;
             browser_close
         end)
  end.

End Walker.

Arguments state : clear implicits.
Arguments M : clear implicits.

(** ** Pages to run the script on *)

(** A radio input as the two fillers read it. *)
Record radio : Type := {
  r_name : option string;
  r_value : option string;
  r_id : option string
}.

(** [elem.get_attribute(attr)] *)
Definition radio_attr (r : radio) (attr : string) : option string :=
  if String.eqb attr "name" then r_name r
  else if String.eqb attr "value" then r_value r
  else if String.eqb attr "id" then r_id r
  else None.

(** A scripted page: its radio inputs in document order, the selectors that
    match an element, and how the call numbered [n] ends when it is a wait or
    an action. *)
Record page : Type := {
  radios : list radio;
  shows : string -> bool;
  reacts : nat -> event -> outcome unit
}.

(** The driver of a scripted page; its world counts the calls made so far. *)
Definition scripted (p : page) : Driver nat := {|
  d_launch := fun headless n => (reacts p n (ELaunch headless), S n);
  d_new_page := fun n => (reacts p n ENewPage, S n);
  d_goto := fun url t n => (reacts p n (EGoto url t), S n);
  d_wait_for_selector := fun sel t n => (reacts p n (EWaitForSelector sel t), S n);
  d_wait_for_timeout := fun ms n => (reacts p n (EWaitForTimeout ms), S n);
  d_query_selector := fun sel n =>
    (match reacts p n (EQuerySelector sel) with
     | Ret _ => Ret (if shows p sel then Some 0 else None)
     | Raise e => Raise e
     end, S n);
  d_query_selector_all := fun sel n =>
    (match reacts p n (EQuerySelectorAll sel) with
     | Ret _ => Ret (seq 0 (List.length (radios p)))
     | Raise e => Raise e
     end, S n);
  d_get_attribute := fun elem attr n =>
    (match reacts p n (EGetAttribute elem attr) with
     | Ret _ => Ret (match nth_error (radios p) elem with
                     | Some r => radio_attr r attr
                     | None => None
                     end)
     | Raise e => Raise e
     end, S n);
  d_fill := fun sel v n => (reacts p n (EFill sel v), S n);
  d_select_option := fun sel v n => (reacts p n (ESelectOption sel v), S n);
  d_check := fun sel n => (reacts p n (ECheck sel), S n);
  d_click := fun sel t n => (reacts p n (EClick sel t), S n);
  d_close := fun n => (reacts p n EClose, S n);
  d_input := fun prompt n => (reacts p n (EInput prompt), S n)
|}.

(** A generator that walks the residues: the draw below [n] from state [r]
    is [r mod n]. *)
Definition counter : Random nat := {|
  randbelow := fun n r => (r mod n, S r);
  randbelow_lt := fun n r (Hn : 0 < n) =>
    Nat.mod_upper_bound r n (proj2 (Nat.neq_0_lt_0 n) Hn)
|}.

(** Two interpreters: one enumerates a set in insertion order, the other in
    the reverse order. *)
Definition insertion_order : Hashing := {|
  set_iter := fun s => s;
  set_iter_perm := fun s => Permutation_refl s
|}.

Definition reverse_order : Hashing := {|
  set_iter := @rev string;
  set_iter_perm := fun s => Permutation_sym (Permutation_rev s)
|}.

Definition always_ok : nat -> event -> outcome unit := fun _ _ => Ret tt.

Definition out {A W R : Type} (r : outcome A * state W R * list event) : outcome A :=
  fst (fst r).
Definition final {A W R : Type} (r : outcome A * state W R * list event) : state W R :=
  snd (fst r).
Definition emitted {A W R : Type} (r : outcome A * state W R * list event) : list event :=
  snd r.

(** A page on which no radio input ever appears. *)
Definition blank_page : page := {|
  radios := [];
  shows := fun _ => false;
  reacts := fun _ ev =>
    match ev with
    | EWaitForSelector _ _ => Raise (PlaywrightTimeoutError "Timeout 5000ms exceeded.")
    | _ => Ret tt
    end
|}.

(** A form without radio inputs whose root container is there for the calls
    numbered below [limit] and missing afterwards. *)
Definition vanishing_form (limit : nat) : page := {|
  radios := [];
  shows := fun _ => false;
  reacts := fun n ev =>
    match ev with
    | EWaitForSelector sel _ =>
        if String.eqb sel container_selector && (n <? limit)%nat then Ret tt
        else Raise (PlaywrightTimeoutError "Timeout exceeded.")
    | _ => Ret tt
    end
|}.

(** ** Reading the events of a run *)

(** The [fill] actions among the events: selector and text. *)
Definition fills (evs : list event) : list (string * string) :=
  flat_map (fun ev => match ev with EFill sel v => [(sel, v)] | _ => [] end) evs.

(** The [select_option] actions among the events. *)
Definition selects (evs : list event) : list (string * string) :=
  flat_map (fun ev => match ev with ESelectOption sel v => [(sel, v)] | _ => [] end) evs.

(** The selectors looked up with [query_selector]. *)
Definition lookups (evs : list event) : list string :=
  flat_map (fun ev => match ev with EQuerySelector sel => [sel] | _ => [] end) evs.

(** The selectors of the [check] actions. *)
Definition checks (evs : list event) : list string :=
  flat_map (fun ev => match ev with ECheck sel => [sel] | _ => [] end) evs.

(** The selectors of the [click] actions. *)
Definition clicks (evs : list event) : list string :=
  flat_map (fun ev => match ev with EClick sel _ => [sel] | _ => [] end) evs.

(** The console lines. *)
Definition console (evs : list event) : list string :=
  flat_map (fun ev => match ev with EPrint line => [line] | _ => [] end) evs.

(** A form whose first page has the text inputs [element_2] and
    [element_3]. *)
Definition two_inputs : page := {|
  radios := [];
  shows := fun sel =>
    String.eqb sel (selector_input "element_2")
    || String.eqb sel (selector_input "element_3");
  reacts := always_ok
|}.

(** The element [random.choice(seq)] returns when the generator is in state
    [g]. *)
Definition pick {R A : Type} (G : Random R) (seq : list A) (g : R) : option A :=
  nth_error seq (fst (randbelow G (List.length seq) g)).

(** The generator after a draw below [n]. *)
Definition drawn {R : Type} (G : Random R) (n : nat) (g : R) : R :=
  snd (randbelow G n g).


(** ** The radios of a page *)

(** [get_attribute] on the handle [h] reads the attributes of the radio
    [r]. *)
Definition reads {W : Type} (D : Driver W) (h : handle) (r : radio) : Prop :=
  forall attr w, fst (d_get_attribute D h attr w) = Ret (radio_attr r attr).

(** The driver presents the radios [L]: the wait for a radio input succeeds,
    [query_selector_all] returns one handle per radio, in document order, and
    each handle reads its radio. *)
Definition presents {W : Type} (D : Driver W) (L : list radio) : Prop :=
  (forall t w, fst (d_wait_for_selector D radio_selector t w) = Ret tt) /\
  (forall w, exists hs,
     fst (d_query_selector_all D radio_selector w) = Ret hs /\
     Forall2 (reads D) hs L).

(** The first loop of the Radio-Matrix Filler on the attributes themselves. *)
Fixpoint group_values (L : list radio) (groups : list (string * pyset))
    : list (string * pyset) :=
  match L with
  | [] => groups
  | r :: rest =>
      if negb (attr_truthy (r_name r)) || negb (attr_truthy (r_value r))
      then group_values rest groups
      else group_values rest
             (setdefault_put (set_add (attr_text (r_value r))) []
                (attr_text (r_name r)) groups)
  end.

(** The first loop of the Label-Click Filler on the attributes themselves. *)
Fixpoint group_options (L : list radio) (groups : list (string * options))
    : list (string * options) :=
  match L with
  | [] => groups
  | r :: rest =>
      if negb (attr_truthy (r_name r)) || negb (attr_truthy (r_value r))
         || negb (attr_truthy (r_id r))
      then group_options rest groups
      else group_options rest
             (setdefault_put
                (fun l => (l ++ [(attr_text (r_value r), attr_text (r_id r))])%list)
                [] (attr_text (r_name r)) groups)
  end.

(** [groups.get(name, empty)] *)
Fixpoint get_or {A : Type} (empty : A) (name : string) (groups : list (string * A)) : A :=
  match groups with
  | [] => empty
  | (k, a) :: rest => if String.eqb name k then a else get_or empty name rest
  end.

(** The (value, id) pairs of the radios named [name] that carry a name, a
    value and an id, in document order. *)
Definition options_of (L : list radio) (name : string) : options :=
  flat_map (fun r =>
              if attr_truthy (r_name r) && attr_truthy (r_value r)
                 && attr_truthy (r_id r) && String.eqb name (attr_text (r_name r))
              then [(attr_text (r_value r), attr_text (r_id r))]
              else []) L.


(** Events that look nothing up, act on nothing and print nothing. *)
Definition quiet (evs : list event) : Prop :=
  lookups evs = [] /\ checks evs = [] /\ clicks evs = [] /\ console evs = [].

(** Page 5 with one question of two options whose labels are in place; a
    click on the label of [a] is intercepted. *)
Definition intercepted : page := {|
  radios := [ {| r_name := Some "q"; r_value := Some "1"; r_id := Some "a" |};
              {| r_name := Some "q"; r_value := Some "2"; r_id := Some "b" |} ];
  shows := fun _ => true;
  reacts := fun _ ev =>
    match ev with
    | EClick sel _ =>
        if String.eqb sel (label_selector "a")
        then Raise (PyException "element intercepts pointer events")
        else Ret tt
    | _ => Ret tt
    end
|}.

(** Page 5 with the same question and no trouble. *)
Definition two_options : page := {|
  radios := [ {| r_name := Some "q"; r_value := Some "1"; r_id := Some "a" |};
              {| r_name := Some "q"; r_value := Some "2"; r_id := Some "b" |} ];
  shows := fun _ => true;
  reacts := always_ok
|}.

(** A matrix page: question [q1] has three options, the two radios of
    question [q2] carry no value, and one radio carries no name. *)
Definition ragged_matrix : page := {|
  radios := [ {| r_name := Some "q1"; r_value := Some "1"; r_id := Some "q1_1" |};
              {| r_name := Some "q2"; r_value := None; r_id := Some "q2_1" |};
              {| r_name := Some "q1"; r_value := Some "2"; r_id := None |};
              {| r_name := None; r_value := Some "9"; r_id := Some "x" |};
              {| r_name := Some "q2"; r_value := None; r_id := Some "q2_2" |};
              {| r_name := Some "q1"; r_value := Some "3"; r_id := Some "q1_3" |} ];
  shows := fun _ => true;
  reacts := always_ok
|}.

(** ** The walk as the specification words it *)

(** The two strategies for the pages after page 1. *)
Inductive strategy : Type :=
| Matrix
| LabelClick.

(** Pages 2 to 8 and the strategy of each. *)
Definition later_pages : list (nat * strategy) :=
  [(2, Matrix); (3, Matrix); (4, Matrix); (5, LabelClick);
   (6, Matrix); (7, LabelClick); (8, Matrix)].

Definition fill_strategy {W R : Type} (D : Driver W) (G : Random R) (H : Hashing)
    (s : strategy) : M W R unit :=
  match s with
  | Matrix => fill_radio_matrix_page D G H 5000
  | LabelClick => fill_page_5_or_7 D G
  end.

(** The transition into each page in turn: the pause, the page's fill
    strategy, the Continue action. *)
Fixpoint transitions {W R : Type} (D : Driver W) (G : Random R) (H : Hashing)
    (pages : list (nat * strategy)) : M W R unit :=
  match pages with
  | [] => ret tt
  | (_, s) :: rest =>
      bind (pause D) (fun _ =>
      bind (fill_strategy D G H s) (fun _ =>
      bind (click_continue D) (fun _ =>
      transitions D G H rest)))
  end.

(** The events that move the walk from page to page: navigation, waits,
    pauses and clicks on the submit control. *)
Definition is_step (ev : event) : bool :=
  match ev with
  | EGoto _ _ | EWaitForSelector _ _ | EWaitForTimeout _ => true
  | EClick sel _ => String.eqb sel submit_selector
  | _ => false
  end.

Definition steps (evs : list event) : list event := filter is_step evs.

(** The steps of one transition. *)
Definition transition_steps : list event :=
  [EWaitForTimeout 1000; EWaitForSelector radio_selector 5000;
   EClick submit_selector 5000].

(** A survey whose pages all show one question with two labelled options. *)
Definition survey : page := {|
  radios := [ {| r_name := Some "q"; r_value := Some "1"; r_id := Some "a" |};
              {| r_name := Some "q"; r_value := Some "2"; r_id := Some "b" |} ];
  shows := fun _ => true;
  reacts := always_ok
|}.

(** ** The options a run chooses *)

(** The (name, value) pairs the second loop of the Radio-Matrix Filler
    chooses from generator state [g], group after group. *)
Fixpoint chosen_values {R : Type} (G : Random R) (H : Hashing)
    (groups : list (string * pyset)) (g : R) : list (string * string) :=
  match groups with
  | [] => []
  | (name, value_set) :: rest =>
      match pick G (set_iter H value_set) g with
      | Some v =>
          (name, v)
          :: chosen_values G H rest (drawn G (List.length (set_iter H value_set)) g)
      | None => []
      end
  end.

(** The (value, id) pairs the second loop of the Label-Click Filler chooses
    from generator state [g], group after group. *)
Fixpoint chosen_options {R : Type} (G : Random R)
    (groups : list (string * options)) (g : R) : list (string * string) :=
  match groups with
  | [] => []
  | (name, opts) :: rest =>
      match pick G opts g with
      | Some chosen => chosen :: chosen_options G rest (drawn G (List.length opts) g)
      | None => []
      end
  end.

(** A matrix page with the questions [q1] (options 1, 2, 3) and [q2]
    (options 1, 2). *)
Definition matrix_radios : list radio :=
  [ {| r_name := Some "q1"; r_value := Some "1"; r_id := None |};
    {| r_name := Some "q1"; r_value := Some "2"; r_id := None |};
    {| r_name := Some "q1"; r_value := Some "3"; r_id := None |};
    {| r_name := Some "q2"; r_value := Some "1"; r_id := None |};
    {| r_name := Some "q2"; r_value := Some "2"; r_id := None |} ].

Definition matrix : page := {|
  radios := matrix_radios;
  shows := fun _ => true;
  reacts := always_ok
|}.


(** ** Kinds of events *)

(** What a filler may do to the page: wait, look up, read, act, and print a
    tagged line.  Navigation, the browser's launch and close, the prompt and
    untagged lines are no page events. *)
Definition page_event (ev : event) : bool :=
  match ev with
  | EWaitForSelector _ _ | EWaitForTimeout _
  | EQuerySelector _ | EQuerySelectorAll _ | EGetAttribute _ _
  | EFill _ _ | ESelectOption _ _ | ECheck _ | EClick _ _ => true
  | EPrint line => is_warning line || is_error line
  | _ => false
  end.

Definition on_page (ev : event) : Prop := page_event ev = true.


(** The warning lines of the console. *)
Definition warnings (evs : list event) : list string :=
  filter is_warning (console evs).


(** Page 1 with the text input [element_2], the select [element_3] and the
    submit control; nothing answers to any other field. *)
Definition mixed_controls : page := {|
  radios := [];
  shows := fun sel =>
    String.eqb sel (selector_input "element_2")
    || String.eqb sel (selector_select "element_3")
    || String.eqb sel submit_selector;
  reacts := always_ok
|}.

(** A form without radio inputs that can be loaded by the calls numbered
    below [limit]; afterwards the navigation ends as [failure] says. *)
Definition unreachable_form (limit : nat) (failure : exn) : page := {|
  radios := [];
  shows := fun _ => false;
  reacts := fun n ev =>
    match ev with
    | EGoto _ _ => if (n <? limit)%nat then Ret tt else Raise failure
    | EWaitForSelector sel _ =>
        if String.eqb sel container_selector then Ret tt
        else Raise (PlaywrightTimeoutError "Timeout exceeded.")
    | _ => Ret tt
    end
|}.

(** A form that loads but whose container wait fails with [failure]. *)
Definition broken_form (failure : exn) : page := {|
  radios := [];
  shows := fun _ => false;
  reacts := fun _ ev =>
    match ev with
    | EWaitForSelector _ _ => Raise failure
    | _ => Ret tt
    end
|}.

Definition err_load : string := "[ERROR] Could not load page 1. Check SITE_URL.".



(** The matrix page when only the first option of each question can still
    be found and its check fails. *)
Definition flaky_matrix : page := {|
  radios := matrix_radios;
  shows := fun sel =>
    String.eqb sel (option_selector "q1" "1") || String.eqb sel (option_selector "q2" "1");
  reacts := fun _ ev =>
    match ev with
    | ECheck _ => Raise (PlaywrightTimeoutError "Timeout 30000ms exceeded.")
    | _ => Ret tt
    end
|}.





(** The browser is not closed by these events; it is closed by the last of
    these events and by no other. *)
Definition closed_never (evs : list event) : Prop := ~ In EClose evs.

Definition closed_last (evs : list event) : Prop :=
  exists pre, evs = (pre ++ [EClose])%list /\ ~ In EClose pre.

(** The console lines that carry neither tag, and the navigations. *)
Definition untagged (line : string) : bool :=
  negb (is_warning line || is_error line).

Definition reports (evs : list event) : list string :=
  filter untagged (console evs).

Definition navigations (evs : list event) : list (string * Z) :=
  flat_map (fun ev => match ev with EGoto url t => [(url, t)] | _ => [] end) evs.

(** The survey when standard input is at its end: the prompt raises. *)
Definition no_terminal : page := {|
  radios := [];
  shows := fun _ => false;
  reacts := fun _ ev =>
    match ev with
    | EInput _ => Raise (PyException "EOF when reading a line")
    | EWaitForSelector sel _ =>
        if String.eqb sel container_selector then Ret tt
        else Raise (PlaywrightTimeoutError "Timeout 5000ms exceeded.")
    | _ => Ret tt
    end
|}.

Definition prompt : string := "All done. Press Enter to close the browser...".

(** * Properties *)

(** ** Pages without radio inputs *)

(** C7: when the wait for a radio input times out, the Radio-Matrix Filler
    and the Label-Click Filler both return normally, and the wait is the only
    call either of them makes: no check, no click, no console line. *)
Theorem no_radios_no_action {W R : Type} (D : Driver W) (G : Random R)
    (H : Hashing) (st : state W R) (msg : string) :
  fst (d_wait_for_selector D radio_selector 5000 (world st))
    = Raise (PlaywrightTimeoutError msg) ->
  let after := {| world := snd (d_wait_for_selector D radio_selector 5000 (world st));
                  gen := gen st |} in
  fill_radio_matrix_page D G H 5000 st
    = (Ret tt, after, [EWaitForSelector radio_selector 5000]) /\
  fill_page_5_or_7 D G st
    = (Ret tt, after, [EWaitForSelector radio_selector 5000]).
Proof.
  intros Hwait after.
  unfold fill_radio_matrix_page, fill_page_5_or_7, bind, try_except,
    wait_for_selector, invoke, ret.
  subst after.
  destruct (d_wait_for_selector D radio_selector 5000 (world st)) as [o w].
  simpl in Hwait. subst o. simpl. split; reflexivity.
Qed.

Lemma no_radios_no_action_witness :
  fill_radio_matrix_page (scripted blank_page) counter insertion_order 5000
      {| world := 0; gen := 0 |}
    = (Ret tt, {| world := 1; gen := 0 |}, [EWaitForSelector radio_selector 5000]) /\
  fill_page_5_or_7 (scripted blank_page) counter {| world := 0; gen := 0 |}
    = (Ret tt, {| world := 1; gen := 0 |}, [EWaitForSelector radio_selector 5000]).
Proof.
  apply (no_radios_no_action (scripted blank_page) counter insertion_order
           {| world := 0; gen := 0 |} "Timeout 5000ms exceeded.").
  reflexivity.
Defined.

(** ** Before the browser *)

(** C9: when [json.loads] raises on the contents of the data file, [main]
    raises that exception with nothing emitted: no console line, no browser
    launch, no navigation.  The absent file is the one failure [main] reports
    itself: one console line, a normal return, and again no browser. *)
Theorem invalid_json_is_uncaught {W R : Type} (D : Driver W) (G : Random R)
    (H : Hashing) (st : state W R) (e : exn) :
  main D G H (Present (Raise e)) st = (Raise e, st, []) /\
  main D G H Absent st
    = (Ret tt, st, [EPrint "[ERROR] 'persons.json' not found."]).
Proof.
  split; reflexivity.
Qed.

(** ** Running computations *)

Section Runs.

Context {W R : Type}.

Lemma bind_run {A B : Type} (m : M W R A) (k : A -> M W R B) (st : state W R) :
  bind m k st
  = match out (m st) with
    | Ret a => (out (k a (final (m st))), final (k a (final (m st))),
                (emitted (m st) ++ emitted (k a (final (m st))))%list)
    | Raise e => (Raise e, final (m st), emitted (m st))
    end.
Proof.
  unfold bind, out, final, emitted.
  destruct (m st) as [[[a | e] st1] ev1]; simpl; [|reflexivity].
  destruct (k a st1) as [[o st2] ev2]; reflexivity.
Qed.

Lemma bind_ret {A B : Type} (m : M W R A) (k : A -> M W R B) (st st1 : state W R)
    (a : A) (ev1 : list event) :
  m st = (Ret a, st1, ev1) ->
  bind m k st
  = (out (k a st1), final (k a st1), (ev1 ++ emitted (k a st1))%list).
Proof.
  intro E. rewrite bind_run, E. reflexivity.
Qed.

Lemma bind_raise {A B : Type} (m : M W R A) (k : A -> M W R B) (st st1 : state W R)
    (e : exn) (ev1 : list event) :
  m st = (Raise e, st1, ev1) ->
  bind m k st = (Raise e, st1, ev1).
Proof.
  intro E. rewrite bind_run, E. reflexivity.
Qed.

Lemma bind_assoc {A B C : Type} (m : M W R A) (k : A -> M W R B)
    (k' : B -> M W R C) (st : state W R) :
  bind (bind m k) k' st = bind m (fun a => bind (k a) k') st.
Proof.
  unfold bind.
  destruct (m st) as [[[a | e] st1] ev1]; [| reflexivity].
  destruct (k a st1) as [[[b | e] st2] ev2]; [| reflexivity].
  destruct (k' b st2) as [[o st3] ev3].
  rewrite app_assoc. reflexivity.
Qed.

Lemma run_eta {A : Type} (r : outcome A * state W R * list event) :
  r = (out r, final r, emitted r).
Proof. destruct r as [[o s] ev]. reflexivity. Qed.

End Runs.

(** ** The fatal wait on page 1 *)

Lemma people_loop_app {W R : Type} (D : Driver W) (G : Random R) (H : Hashing)
    (done more : list person) :
  forall (idx : nat) (st0 st : state W R) (ev0 : list event),
    people_loop D G H idx done st0 = (Ret NextPerson, st, ev0) ->
    people_loop D G H idx (done ++ more) st0
    = (out (people_loop D G H (idx + List.length done) more st),
       final (people_loop D G H (idx + List.length done) more st),
       (ev0 ++ emitted (people_loop D G H (idx + List.length done) more st))%list).
Proof.
  induction done as [| p done IH]; intros idx st0 st ev0 Hdone.
  - simpl in Hdone. unfold ret in Hdone. inversion Hdone; subst.
    simpl. rewrite Nat.add_0_r. apply run_eta.
  - simpl in Hdone. simpl List.app. simpl people_loop.
    rewrite bind_run in Hdone. rewrite bind_run.
    destruct (out (process_person D G H idx p st0)) as [[|] | e].
    + inversion Hdone as [[Ho Hs He]].
      assert (Hrun : people_loop D G H (S idx) done
                       (final (process_person D G H idx p st0))
                     = (Ret NextPerson, st,
                        emitted (people_loop D G H (S idx) done
                                   (final (process_person D G H idx p st0))))).
      { rewrite (run_eta (people_loop D G H (S idx) done _)) at 1.
        rewrite Ho, Hs. reflexivity. }
      rewrite (IH _ _ _ _ Hrun).
      rewrite Nat.add_succ_r. change (S idx + List.length done) with (S (idx + List.length done)).
      subst st ev0. unfold out, final, emitted. simpl.
      rewrite <- app_assoc. reflexivity.
    + unfold ret in Hdone. simpl in Hdone. discriminate.
    + discriminate.
Qed.

(** C8: let the browser be open, let the records before [person_data] have
    been walked to their end, and let the wait for the root container time
    out for [person_data] after its page was loaded.  Then [main] prints the
    container error, closes the browser and stops: these are its last events
    whatever records remain, and it ends as the close call ends. *)
Theorem missing_container_is_fatal {W R : Type} (D : Driver W) (G : Random R)
    (H : Hashing) (done rest : list person) (person_data : person)
    (start opened st : state W R) (ev0 : list event) (msg : string) :
  bind (launch D PLAYWRIGHT_HEADLESS) (fun _ => new_page D) start
    = (Ret tt, opened, [ELaunch PLAYWRIGHT_HEADLESS; ENewPage]) ->
  people_loop D G H 1 done opened = (Ret NextPerson, st, ev0) ->
  fst (d_goto D SITE_URL 30000 (world st)) = Ret tt ->
  fst (d_wait_for_selector D container_selector 10000
         (snd (d_goto D SITE_URL 30000 (world st))))
    = Raise (PlaywrightTimeoutError msg) ->
  let run := main D G H (Present (Ret (done ++ person_data :: rest))%list) start in
  let closing := d_close D (snd (d_wait_for_selector D container_selector 10000
                                   (snd (d_goto D SITE_URL 30000 (world st))))) in
  emitted run
    = ([EStart; ELaunch PLAYWRIGHT_HEADLESS; ENewPage] ++ ev0
       ++ [EPrint (banner (S (List.length done)));
           EGoto SITE_URL 30000;
           EWaitForSelector container_selector 10000;
           EPrint "[ERROR] '#form_container' not found on page 1.";
           EClose;
           EStop])%list /\
  out run = fst closing /\
  world (final run) = snd closing.
Proof.
  intros Hopen Hdone Hgoto Hwait run closing.
  assert (Hloop : people_loop D G H 1 (done ++ person_data :: rest) opened
            = (match fst closing with Ret _ => Ret Returned | Raise e => Raise e end,
               {| world := snd closing; gen := gen st |},
               (ev0 ++ [EPrint (banner (S (List.length done)));
                        EGoto SITE_URL 30000;
                        EWaitForSelector container_selector 10000;
                        EPrint "[ERROR] '#form_container' not found on page 1.";
                        EClose])%list)).
  { rewrite (people_loop_app D G H done (person_data :: rest) 1 opened st ev0 Hdone).
    subst closing.
    simpl people_loop.
    unfold process_person, bind, try_except, goto, wait_for_selector,
      browser_close, invoke, print, ret, out, final, emitted, banner.
    simpl.
    destruct (d_goto D SITE_URL 30000 (world st)) as [og wg].
    simpl in Hgoto, Hwait. subst og. simpl.
    destruct (d_wait_for_selector D container_selector 10000 wg) as [ow ww].
    simpl in Hwait. subst ow. simpl.
    destruct (d_close D ww) as [[[] | e] wc]; reflexivity. }
  subst run. unfold main, with_sync_playwright.
  rewrite (bind_ret _ _ start start (done ++ person_data :: rest)%list []) by reflexivity.
  unfold out, final, emitted. simpl.
  rewrite <- (bind_assoc (launch D PLAYWRIGHT_HEADLESS) (fun _ => new_page D)).
  rewrite (bind_ret _ _ _ _ _ _ Hopen).
  destruct (fst closing) as [[] | e].
  - rewrite (bind_ret _ _ _ _ _ _ Hloop). unfold out, final, emitted, ret. simpl.
    rewrite <- !app_assoc. simpl. repeat split; reflexivity.
  - rewrite (bind_raise _ _ _ _ _ _ Hloop). unfold out, final, emitted. simpl.
    rewrite <- !app_assoc. simpl. repeat split; reflexivity.
Qed.

Lemma missing_container_is_fatal_witness :
  let D := scripted (vanishing_form 27) in
  let start := {| world := 0; gen := 0 |} in
  let opened := {| world := 2; gen := 0 |} in
  let run := main D counter insertion_order
               (Present (Ret [[]; [("element_2", PyStr "Ali")]; []])) start in
  emitted run
    = ([EStart; ELaunch PLAYWRIGHT_HEADLESS; ENewPage]
       ++ emitted (people_loop D counter insertion_order 1 [[]] opened)
       ++ [EPrint (banner 2);
           EGoto SITE_URL 30000;
           EWaitForSelector container_selector 10000;
           EPrint "[ERROR] '#form_container' not found on page 1.";
           EClose;
           EStop])%list /\
  out run = Ret tt /\
  world (final run) = 29.
Proof.
  intros D start opened run.
  apply (missing_container_is_fatal D counter insertion_order
           [[]] [[]] [("element_2", PyStr "Ali")] start opened
           (final (people_loop D counter insertion_order 1 [[]] opened))
           (emitted (people_loop D counter insertion_order 1 [[]] opened))
           "Timeout exceeded.").
  - reflexivity.
  - vm_compute. reflexivity.
  - reflexivity.
  - vm_compute. reflexivity.
Defined.

(** ** Page 1 *)

Lemma selector_input_not_select (f f' : string) :
  selector_input f <> selector_select f'.
Proof. unfold selector_input, selector_select. simpl. discriminate. Qed.

Section Page1.

Context {W R : Type}.
Variable D : Driver W.

(** One field whose text input is found: one lookup, one fill, and a console
    line only when the fill raises. *)
Lemma fill_field_found (f : string) (v : pyvalue) (st : state W R) (h : handle) :
  fst (d_query_selector D (selector_input f) (world st)) = Ret (Some h) ->
  exists tail,
    emitted (fill_field D f v st)
      = (EQuerySelector (selector_input f)
         :: EFill (selector_input f) (py_str v) :: tail) /\
    fills tail = [] /\ selects tail = [] /\ lookups tail = [].
Proof.
  intro Hq.
  unfold fill_field, try_except, bind, query_selector, fill, invoke, print, emitted.
  destruct (d_query_selector D (selector_input f) (world st)) as [oq wq].
  simpl in Hq. subst oq. simpl.
  destruct (d_fill D (selector_input f) (py_str v) wq) as [[[] | e] wf]; simpl.
  - exists []. repeat split; reflexivity.
  - eexists. split; [reflexivity |]. repeat split; reflexivity.
Qed.

(** No exception leaves the body of the loop over the fields. *)
Lemma fill_field_returns (f : string) (v : pyvalue) (st : state W R) :
  out (fill_field D f v st) = Ret tt.
Proof.
  unfold fill_field, try_except, bind, query_selector, fill, select_option,
    invoke, print, out, any_exception.
  destruct (d_query_selector D (selector_input f) (world st)) as [[[h |] | e] wq];
    simpl; try reflexivity.
  - destruct (d_fill D _ _ wq) as [[[] | e] wf]; reflexivity.
  - destruct (d_query_selector D (selector_select f) wq) as [[[h |] | e] ws];
      simpl; try reflexivity.
    destruct (d_select_option D _ _ ws) as [[[] | e] wo]; reflexivity.
Qed.

Lemma fill_fields_returns (person_data : person) :
  forall st : state W R, out (fill_fields D person_data st) = Ret tt.
Proof.
  induction person_data as [| [f v] rest IH]; intro st; [reflexivity |].
  simpl. rewrite bind_run, fill_field_returns. apply IH.
Qed.

Lemma fill_fields_cons (f : string) (v : pyvalue) (rest : person) (st : state W R) :
  emitted (fill_fields D ((f, v) :: rest) st)
  = (emitted (fill_field D f v st)
     ++ emitted (fill_fields D rest (final (fill_field D f v st))))%list.
Proof.
  simpl. rewrite bind_run, fill_field_returns. reflexivity.
Qed.

End Page1.

Lemma fills_app (a b : list event) : fills (a ++ b) = (fills a ++ fills b)%list.
Proof. apply flat_map_app. Qed.
Lemma selects_app (a b : list event) : selects (a ++ b) = (selects a ++ selects b)%list.
Proof. apply flat_map_app. Qed.
Lemma lookups_app (a b : list event) : lookups (a ++ b) = (lookups a ++ lookups b)%list.
Proof. apply flat_map_app. Qed.
Lemma checks_app (a b : list event) : checks (a ++ b) = (checks a ++ checks b)%list.
Proof. apply flat_map_app. Qed.
Lemma clicks_app (a b : list event) : clicks (a ++ b) = (clicks a ++ clicks b)%list.
Proof. apply flat_map_app. Qed.
Lemma console_app (a b : list event) : console (a ++ b) = (console a ++ console b)%list.
Proof. apply flat_map_app. Qed.

(** C5: when the lookup of every field's text input finds a control, the
    Page-1 Filler issues one fill per field, in the record's order, each with
    the field's input selector and the string form of its value; it issues no
    select action and looks up no select control.  On any page, the select
    control of a field is looked up only after the lookup of its text input
    has returned nothing. *)
Theorem one_fill_per_field {W R : Type} (D : Driver W) (person_data : person)
    (st : state W R) :
  (forall f w, In f (map fst person_data) ->
     exists h, fst (d_query_selector D (selector_input f) w) = Ret (Some h)) ->
  let evs := emitted (fill_first_page D person_data st) in
  fills evs = map (fun item => (selector_input (fst item), py_str (snd item))) person_data /\
  List.length (fills evs) = List.length person_data /\
  selects evs = [] /\
  lookups evs = map (fun item => selector_input (fst item)) person_data /\
  (forall f v (s : state W R),
     In (selector_select f) (lookups (emitted (fill_field D f v s))) ->
     fst (d_query_selector D (selector_input f) (world s)) = Ret None).
Proof.
  intros Hfound evs.
  assert (Hfields : forall (items : person) (s : state W R),
            (forall f, In f (map fst items) -> In f (map fst person_data)) ->
            fills (emitted (fill_fields D items s))
              = map (fun item => (selector_input (fst item), py_str (snd item))) items /\
            selects (emitted (fill_fields D items s)) = [] /\
            lookups (emitted (fill_fields D items s))
              = map (fun item => selector_input (fst item)) items).
  { induction items as [| [f v] rest IH]; intros s Hsub.
    - repeat split; reflexivity.
    - rewrite fill_fields_cons, fills_app, selects_app, lookups_app.
      destruct (Hfound f (world s)) as [h Hq]; [apply Hsub; left; reflexivity |].
      destruct (fill_field_found D f v s h Hq) as [tail [Hev [Hf [Hs Hl]]]].
      rewrite Hev.
      destruct (IH (final (fill_field D f v s))) as [IHf [IHs IHl]].
      { intros g Hg. apply Hsub. right. exact Hg. }
      rewrite IHf, IHs, IHl. simpl. rewrite Hf, Hs, Hl. repeat split; reflexivity. }
  destruct (Hfields person_data st (fun f Hf => Hf)) as [Hf [Hs Hl]].
  assert (Hevs : exists tail, evs = (emitted (fill_fields D person_data st)
                                     ++ EClick submit_selector 5000 :: tail)%list /\
                              fills tail = [] /\ selects tail = [] /\ lookups tail = []).
  { subst evs. unfold fill_first_page. rewrite bind_run, fill_fields_returns.
    unfold emitted at 1. simpl snd.
    unfold try_except, click, invoke, print, emitted at 2.
    destruct (d_click D submit_selector 5000 _) as [[[] | [m | m]] wc]; simpl;
      eexists; (split; [reflexivity |]); repeat split; reflexivity. }
  destruct Hevs as [tail [Hev [Tf [Ts Tl]]]].
  rewrite Hev, fills_app, selects_app, lookups_app. simpl.
  rewrite Tf, Ts, Tl, Hf, Hs, Hl, !app_nil_r.
  repeat split; try reflexivity.
  - rewrite length_map. reflexivity.
  - intros f v s Hin.
    unfold fill_field, try_except, bind, query_selector, fill, select_option,
      invoke, print, emitted in Hin.
    destruct (d_query_selector D (selector_input f) (world s)) as [[[h |] | e] wq];
      simpl in *; [| reflexivity |].
    + exfalso.
      destruct (d_fill D _ _ wq) as [[[] | e] wf]; simpl in Hin;
        destruct Hin as [Hin | []]; exact (selector_input_not_select _ _ Hin).
    + exfalso. destruct Hin as [Hin | []]. exact (selector_input_not_select _ _ Hin).
Qed.

Lemma one_fill_per_field_witness :
  let evs := emitted (fill_first_page (scripted two_inputs)
                        [("element_2", PyStr "Ali"); ("element_3", PyStr "Rezaei")]
                        {| world := 0; gen := 0 |}) in
  fills evs = [(selector_input "element_2", "Ali"); (selector_input "element_3", "Rezaei")] /\
  List.length (fills evs) = 2 /\
  selects evs = [] /\
  lookups evs = [selector_input "element_2"; selector_input "element_3"].
Proof.
  intro evs.
  destruct (one_fill_per_field (scripted two_inputs)
              [("element_2", PyStr "Ali"); ("element_3", PyStr "Rezaei")]
              {| world := 0; gen := 0 |}) as [Hf [Hn [Hs [Hl _]]]].
  - intros f w [Hf | [Hf | []]]; subst f; exists 0; reflexivity.
  - repeat split; assumption.
Defined.

(** ** One group *)

Section Groups.

Context {W R : Type}.
Variable D : Driver W.
Variable G : Random R.
Variable H : Hashing.

Lemma random_choice_run {A : Type} (seq : list A) (st : state W R) :
  seq <> [] ->
  exists a,
    pick G seq (gen st) = Some a /\ In a seq /\
    random_choice G seq st
      = (Ret a, {| world := world st; gen := drawn G (List.length seq) (gen st) |}, []).
Proof.
  intro Hne. destruct seq as [| d seq']; [contradiction |].
  pose proof (randbelow_lt G (List.length (d :: seq')) (gen st)) as Hlt.
  unfold random_choice, pick, drawn.
  destruct (randbelow G (List.length (d :: seq')) (gen st)) as [k g] eqn:E.
  simpl fst in *. simpl snd.
  assert (Hk : k < List.length (d :: seq')) by (apply Hlt; simpl; lia).
  exists (nth k (d :: seq') d). split; [| split].
  - apply nth_error_nth'. exact Hk.
  - apply nth_In. exact Hk.
  - reflexivity.
Qed.

Lemma set_iter_nonempty (s : list string) : s <> [] -> set_iter H s <> [].
Proof.
  intros Hne E. apply Hne.
  pose proof (set_iter_perm H s) as P. rewrite E in P.
  apply Permutation_nil in P. exact P.
Qed.

Lemma set_iter_In (s : list string) (v : string) : In v (set_iter H s) <-> In v s.
Proof.
  split; intro Hin.
  - exact (Permutation_in v (set_iter_perm H s) Hin).
  - exact (Permutation_in v (Permutation_sym (set_iter_perm H s)) Hin).
Qed.

(** The body of the second loop of the Radio-Matrix Filler, case by case. *)
Lemma check_group_run (name : string) (value_set : pyset) (st : state W R) :
  value_set <> [] ->
  exists v,
    pick G (set_iter H value_set) (gen st) = Some v /\ In v value_set /\
    let sel := option_selector name v in
    let g := drawn G (List.length (set_iter H value_set)) (gen st) in
    check_group D G H name value_set st
    = match d_query_selector D sel (world st) with
      | (Ret (Some _), w1) =>
          match d_check D sel w1 with
          | (Ret _, w2) =>
              (Ret tt, {| world := w2; gen := g |}, [EQuerySelector sel; ECheck sel])
          | (Raise e, w2) =>
              (Ret tt, {| world := w2; gen := g |},
               [EQuerySelector sel; ECheck sel; EPrint (err_checking sel e)])
          end
      | (Ret None, w1) =>
          (Ret tt, {| world := w1; gen := g |},
           [EQuerySelector sel; EPrint (warn_value_not_found name v)])
      | (Raise e, w1) =>
          (Ret tt, {| world := w1; gen := g |},
           [EQuerySelector sel; EPrint (err_checking sel e)])
      end.
Proof.
  intro Hne.
  destruct (random_choice_run (set_iter H value_set) st (set_iter_nonempty _ Hne))
    as [v [Hpick [Hin Hrun]]].
  exists v. split; [exact Hpick |]. split; [apply set_iter_In; exact Hin |].
  intros sel g. unfold check_group.
  rewrite (bind_ret _ _ _ _ _ _ Hrun).
  fold sel.
  unfold try_except, bind, query_selector, check, invoke, print, out, final,
    emitted, any_exception.
  simpl.
  destruct (d_query_selector D sel (world st)) as [[[h |] | e] w1]; simpl;
    try reflexivity.
  destruct (d_check D sel w1) as [[[] | e] w2]; reflexivity.
Qed.

(** The body of the second loop of the Label-Click Filler, case by case. *)
Lemma click_group_run (name : string) (opts : options) (st : state W R) :
  opts <> [] ->
  exists chosen,
    pick G opts (gen st) = Some chosen /\ In chosen opts /\
    let sel := label_selector (snd chosen) in
    let g := drawn G (List.length opts) (gen st) in
    click_group D G name opts st
    = match d_query_selector D sel (world st) with
      | (Ret (Some _), w1) =>
          match d_click D sel 5000 w1 with
          | (Ret _, w2) =>
              (Ret tt, {| world := w2; gen := g |}, [EQuerySelector sel; EClick sel 5000])
          | (Raise e, w2) =>
              (Ret tt, {| world := w2; gen := g |},
               [EQuerySelector sel; EClick sel 5000; EPrint (err_clicking sel e)])
          end
      | (Ret None, w1) =>
          (Ret tt, {| world := w1; gen := g |},
           [EQuerySelector sel; EPrint (warn_no_label (snd chosen))])
      | (Raise e, w1) =>
          (Ret tt, {| world := w1; gen := g |},
           [EQuerySelector sel; EPrint (err_clicking sel e)])
      end.
Proof.
  intro Hne.
  destruct (random_choice_run opts st Hne) as [chosen [Hpick [Hin Hrun]]].
  exists chosen. split; [exact Hpick |]. split; [exact Hin |].
  intros sel g. unfold click_group.
  rewrite (bind_ret _ _ _ _ _ _ Hrun).
  fold sel.
  unfold try_except, bind, query_selector, click, invoke, print, out, final,
    emitted, any_exception.
  simpl.
  destruct (d_query_selector D sel (world st)) as [[[h |] | e] w1]; simpl;
    try reflexivity.
  destruct (d_click D sel 5000 w1) as [[[] | e] w2]; reflexivity.
Qed.

Lemma check_group_returns (name : string) (value_set : pyset) (st : state W R) :
  value_set <> [] -> out (check_group D G H name value_set st) = Ret tt.
Proof.
  intro Hne.
  destruct (check_group_run name value_set st Hne) as [v [_ [_ Hrun]]].
  simpl in Hrun. rewrite Hrun.
  destruct (d_query_selector D _ (world st)) as [[[h |] | e] w1]; try reflexivity.
  destruct (d_check D _ w1) as [[[] | e] w2]; reflexivity.
Qed.

Lemma click_group_returns (name : string) (opts : options) (st : state W R) :
  opts <> [] -> out (click_group D G name opts st) = Ret tt.
Proof.
  intro Hne.
  destruct (click_group_run name opts st Hne) as [c [_ [_ Hrun]]].
  simpl in Hrun. rewrite Hrun.
  destruct (d_query_selector D _ (world st)) as [[[h |] | e] w1]; try reflexivity.
  destruct (d_click D _ 5000 w1) as [[[] | e] w2]; reflexivity.
Qed.


Lemma click_groups_returns (groups : list (string * options)) :
  Forall (fun g => snd g <> []) groups ->
  forall st : state W R, out (click_groups D G groups st) = Ret tt.
Proof.
  induction 1 as [| [name opts] rest Hne _ IH]; intro st; [reflexivity |].
  simpl. rewrite bind_run, (click_group_returns name opts st Hne). apply IH.
Qed.

Lemma check_groups_cons (name : string) (V : pyset) (rest : list (string * pyset))
    (st : state W R) :
  V <> [] ->
  emitted (check_groups D G H ((name, V) :: rest) st)
  = (emitted (check_group D G H name V st)
     ++ emitted (check_groups D G H rest (final (check_group D G H name V st))))%list.
Proof.
  intro Hne. simpl. rewrite bind_run, (check_group_returns name V st Hne). reflexivity.
Qed.

Lemma click_groups_cons (name : string) (opts : options)
    (rest : list (string * options)) (st : state W R) :
  opts <> [] ->
  emitted (click_groups D G ((name, opts) :: rest) st)
  = (emitted (click_group D G name opts st)
     ++ emitted (click_groups D G rest (final (click_group D G name opts st))))%list.
Proof.
  intro Hne. simpl. rewrite bind_run, (click_group_returns name opts st Hne). reflexivity.
Qed.

End Groups.

(** ** Exceptions raised by actions *)



(** ** Grouping *)

Section Dicts.

Context {A : Type}.
Variable put : A -> A.
Variable empty : A.

Lemma get_or_setdefault_put (name k : string) (groups : list (string * A)) :
  get_or empty name (setdefault_put put empty k groups)
  = if String.eqb name k then put (get_or empty k groups)
    else get_or empty name groups.
Proof.
  induction groups as [| [k0 a] rest IH]; simpl.
  - destruct (String.eqb name k); reflexivity.
  - destruct (String.eqb k k0) eqn:Ek; simpl.
    + apply String.eqb_eq in Ek. subst k0.
      destruct (String.eqb name k); reflexivity.
    + destruct (String.eqb name k0) eqn:En.
      * apply String.eqb_eq in En. subst k0.
        rewrite String.eqb_sym, Ek. reflexivity.
      * exact IH.
Qed.

Lemma keys_setdefault_put (k : string) (groups : list (string * A)) :
  map fst (setdefault_put put empty k groups)
  = if mem k (map fst groups) then map fst groups else (map fst groups ++ [k])%list.
Proof.
  induction groups as [| [k0 a] rest IH]; simpl; [reflexivity |].
  destruct (String.eqb k k0); simpl; [reflexivity |].
  rewrite IH. destruct (mem k (map fst rest)); reflexivity.
Qed.

Lemma mem_In (v : string) (s : list string) : mem v s = true <-> In v s.
Proof.
  induction s as [| x s IH]; simpl.
  - split; [discriminate | contradiction].
  - destruct (String.eqb v x) eqn:E.
    + apply String.eqb_eq in E. subst. split; auto.
    + apply String.eqb_neq in E. rewrite IH. split.
      * auto.
      * intros [Hx | Hs]; [congruence | exact Hs].
Qed.

Lemma mem_not_In (v : string) (s : list string) : mem v s = false <-> ~ In v s.
Proof.
  rewrite <- mem_In. destruct (mem v s); split; intro X; congruence.
Qed.

Lemma keys_NoDup_setdefault_put (k : string) (groups : list (string * A)) :
  NoDup (map fst groups) -> NoDup (map fst (setdefault_put put empty k groups)).
Proof.
  intro Hnd. rewrite keys_setdefault_put.
  destruct (mem k (map fst groups)) eqn:E; [exact Hnd |].
  apply mem_not_In in E.
  apply NoDup_app; [exact Hnd | repeat constructor; intros [] | ].
  intros x Hx [Hk | []]. subst. contradiction.
Qed.

Lemma In_get_or (name : string) (a : A) (groups : list (string * A)) :
  NoDup (map fst groups) -> In (name, a) groups -> get_or empty name groups = a.
Proof.
  induction groups as [| [k0 a0] rest IH]; simpl; intros Hnd Hin; [contradiction |].
  inversion Hnd as [| ? ? Hnotin Hnd']; subst.
  destruct Hin as [Heq | Hin].
  - inversion Heq; subst. rewrite String.eqb_refl. reflexivity.
  - destruct (String.eqb name k0) eqn:E.
    + apply String.eqb_eq in E. subst k0. exfalso. apply Hnotin.
      apply (in_map fst) in Hin. exact Hin.
    + apply IH; assumption.
Qed.

Lemma setdefault_put_Forall (P : string * A -> Prop) (k : string)
    (groups : list (string * A)) :
  P (k, put empty) ->
  (forall a, P (k, a) -> P (k, put a)) ->
  Forall P groups -> Forall P (setdefault_put put empty k groups).
Proof.
  intros Hnew Hput HF. induction HF as [| [k0 a] rest Hx Hrest IH]; simpl.
  - constructor; [exact Hnew | constructor].
  - destruct (String.eqb k k0) eqn:E.
    + apply String.eqb_eq in E. subst k0.
      constructor; [apply Hput; exact Hx | assumption].
    + constructor; assumption.
Qed.

End Dicts.

Lemma quiet_app (a b : list event) : quiet a -> quiet b -> quiet (a ++ b).
Proof.
  unfold quiet. intros [A1 [A2 [A3 A4]]] [B1 [B2 [B3 B4]]].
  rewrite lookups_app, checks_app, clicks_app, console_app.
  rewrite A1, A2, A3, A4, B1, B2, B3, B4. repeat split; reflexivity.
Qed.

Lemma set_add_nonempty (v : string) (s : pyset) : set_add v s <> [].
Proof.
  unfold set_add. destruct (mem v s) eqn:E.
  - apply mem_In in E. intro X. subst. contradiction.
  - intro X. apply app_eq_nil in X. destruct X as [_ X]. discriminate.
Qed.

Lemma set_add_NoDup (v : string) (s : pyset) : NoDup s -> NoDup (set_add v s).
Proof.
  intro Hnd. unfold set_add. destruct (mem v s) eqn:E; [exact Hnd |].
  apply mem_not_In in E.
  apply NoDup_app; [exact Hnd | repeat constructor; intros [] |].
  intros x Hx [Hv | []]. subst. contradiction.
Qed.


(** The dict of the Label-Click Filler: under each name, the (value, id)
    pairs of its radios in document order. *)
Lemma group_options_get (L : list radio) :
  forall (groups : list (string * options)) (name : string),
    get_or [] name (group_options L groups)
    = (get_or [] name groups ++ options_of L name)%list.
Proof.
  induction L as [| r rest IH]; intros groups name; simpl.
  - rewrite app_nil_r. reflexivity.
  - destruct (attr_truthy (r_name r)), (attr_truthy (r_value r)),
      (attr_truthy (r_id r)); simpl; try apply IH.
    rewrite IH, get_or_setdefault_put.
    destruct (String.eqb name (attr_text (r_name r))) eqn:E; simpl.
    + apply String.eqb_eq in E. subst name. rewrite <- app_assoc. reflexivity.
    + reflexivity.
Qed.

Lemma group_options_keys (L : list radio) :
  forall groups : list (string * options),
    NoDup (map fst groups) -> NoDup (map fst (group_options L groups)).
Proof.
  induction L as [| r rest IH]; intros groups Hnd; simpl; [exact Hnd |].
  destruct (negb (attr_truthy (r_name r)) || negb (attr_truthy (r_value r))
            || negb (attr_truthy (r_id r))).
  - apply IH. exact Hnd.
  - apply IH. apply keys_NoDup_setdefault_put. exact Hnd.
Qed.

Lemma group_options_nonempty (L : list radio) :
  forall groups : list (string * options),
    Forall (fun g => snd g <> []) groups ->
    Forall (fun g => snd g <> []) (group_options L groups).
Proof.
  induction L as [| r rest IH]; intros groups HF; simpl; [exact HF |].
  destruct (negb (attr_truthy (r_name r)) || negb (attr_truthy (r_value r))
            || negb (attr_truthy (r_id r))).
  - apply IH. exact HF.
  - apply IH. apply setdefault_put_Forall; [| | exact HF].
    + discriminate.
    + intros a _ X. simpl in X. apply app_eq_nil in X. destruct X as [_ X]. discriminate.
Qed.



Lemma group_values_sets (L : list radio) :
  forall groups : list (string * pyset),
    Forall (fun g => snd g <> [] /\ NoDup (snd g)) groups ->
    Forall (fun g => snd g <> [] /\ NoDup (snd g)) (group_values L groups).
Proof.
  induction L as [| r rest IH]; intros groups HF; simpl; [exact HF |].
  destruct (negb (attr_truthy (r_name r)) || negb (attr_truthy (r_value r))).
  - apply IH. exact HF.
  - apply IH. apply setdefault_put_Forall; [| | exact HF]; simpl.
    + split; [apply set_add_nonempty | apply set_add_NoDup; constructor].
    + intros a [_ Hnd]. split; [apply set_add_nonempty | apply set_add_NoDup; exact Hnd].
Qed.

(** ** Discovery *)

Section Discovery.

Context {W R : Type}.
Variable D : Driver W.
Variable G : Random R.
Variable H : Hashing.

Lemma get_attribute_run (h : handle) (r : radio) (attr : string) (st : state W R) :
  reads D h r ->
  get_attribute D h attr st
  = (Ret (radio_attr r attr),
     {| world := snd (d_get_attribute D h attr (world st)); gen := gen st |},
     [EGetAttribute h attr]).
Proof.
  intro Hr. unfold get_attribute, invoke.
  specialize (Hr attr (world st)).
  destruct (d_get_attribute D h attr (world st)) as [o w]. simpl in *.
  subst o. reflexivity.
Qed.

Lemma quiet_reads (h : handle) (attrs : list string) :
  quiet (map (EGetAttribute h) attrs).
Proof.
  induction attrs as [| a rest IH]; [repeat split |].
  destruct IH as [I1 [I2 [I3 I4]]]. repeat split; simpl; assumption.
Qed.

Lemma collect_values_run (hs : list handle) (L : list radio) :
  Forall2 (reads D) hs L ->
  forall (groups : list (string * pyset)) (st : state W R),
  exists st1 evs,
    collect_values D hs groups st = (Ret (group_values L groups), st1, evs) /\
    gen st1 = gen st /\ quiet evs.
Proof.
  induction 1 as [| h r hs L Hr _ IH]; intros groups st.
  - exists st, []. repeat split.
  - simpl collect_values.
    rewrite (bind_ret _ _ _ _ _ _ (get_attribute_run h r "name" st Hr)).
    rewrite (bind_ret _ _ _ _ _ _ (get_attribute_run h r "value" _ Hr)).
    change (radio_attr r "name") with (r_name r).
    change (radio_attr r "value") with (r_value r).
    simpl group_values.
    set (st2 := {| world := snd (d_get_attribute D h "value" _); gen := _ |}).
    destruct (negb (attr_truthy (r_name r)) || negb (attr_truthy (r_value r))).
    + destruct (IH groups st2) as [st1 [evs [Hrun [Hg Hq]]]].
      rewrite Hrun. unfold out, final, emitted. simpl.
      exists st1, (EGetAttribute h "name" :: EGetAttribute h "value" :: evs).
      split; [reflexivity |]. split; [exact Hg |].
      apply (quiet_app [EGetAttribute h "name"; EGetAttribute h "value"] evs);
        [apply (quiet_reads h ["name"; "value"]) | exact Hq].
    + destruct (IH (setdefault_put (set_add (attr_text (r_value r))) []
                      (attr_text (r_name r)) groups) st2)
        as [st1 [evs [Hrun [Hg Hq]]]].
      rewrite Hrun. unfold out, final, emitted. simpl.
      exists st1, (EGetAttribute h "name" :: EGetAttribute h "value" :: evs).
      split; [reflexivity |]. split; [exact Hg |].
      apply (quiet_app [EGetAttribute h "name"; EGetAttribute h "value"] evs);
        [apply (quiet_reads h ["name"; "value"]) | exact Hq].
Qed.

Lemma collect_options_run (hs : list handle) (L : list radio) :
  Forall2 (reads D) hs L ->
  forall (groups : list (string * options)) (st : state W R),
  exists st1 evs,
    collect_options D hs groups st = (Ret (group_options L groups), st1, evs) /\
    gen st1 = gen st /\ quiet evs.
Proof.
  induction 1 as [| h r hs L Hr _ IH]; intros groups st.
  - exists st, []. repeat split.
  - simpl collect_options.
    rewrite (bind_ret _ _ _ _ _ _ (get_attribute_run h r "name" st Hr)).
    rewrite (bind_ret _ _ _ _ _ _ (get_attribute_run h r "value" _ Hr)).
    rewrite (bind_ret _ _ _ _ _ _ (get_attribute_run h r "id" _ Hr)).
    change (radio_attr r "name") with (r_name r).
    change (radio_attr r "value") with (r_value r).
    change (radio_attr r "id") with (r_id r).
    simpl group_options.
    set (st2 := {| world := snd (d_get_attribute D h "id" _); gen := _ |}).
    destruct (negb (attr_truthy (r_name r)) || negb (attr_truthy (r_value r))
              || negb (attr_truthy (r_id r))).
    + destruct (IH groups st2) as [st1 [evs [Hrun [Hg Hq]]]].
      rewrite Hrun. unfold out, final, emitted. simpl.
      exists st1, (EGetAttribute h "name" :: EGetAttribute h "value"
                   :: EGetAttribute h "id" :: evs).
      split; [reflexivity |]. split; [exact Hg |].
      apply (quiet_app [EGetAttribute h "name"; EGetAttribute h "value";
                        EGetAttribute h "id"] evs);
        [apply (quiet_reads h ["name"; "value"; "id"]) | exact Hq].
    + destruct (IH (setdefault_put
                      (fun l => (l ++ [(attr_text (r_value r), attr_text (r_id r))])%list)
                      [] (attr_text (r_name r)) groups) st2)
        as [st1 [evs [Hrun [Hg Hq]]]].
      rewrite Hrun. unfold out, final, emitted. simpl.
      exists st1, (EGetAttribute h "name" :: EGetAttribute h "value"
                   :: EGetAttribute h "id" :: evs).
      split; [reflexivity |]. split; [exact Hg |].
      apply (quiet_app [EGetAttribute h "name"; EGetAttribute h "value";
                        EGetAttribute h "id"] evs);
        [apply (quiet_reads h ["name"; "value"; "id"]) | exact Hq].
Qed.

(** On a page that presents [L], each filler waits, lists the radios, reads
    their attributes and then runs its second loop on the groups of [L],
    with the generator untouched so far. *)
Lemma matrix_page_run (L : list radio) (timeout : Z) (st : state W R) :
  presents D L ->
  exists st1 pre,
    quiet pre /\ gen st1 = gen st /\
    fill_radio_matrix_page D G H timeout st
    = (out (check_groups D G H (group_values L []) st1),
       final (check_groups D G H (group_values L []) st1),
       (pre ++ emitted (check_groups D G H (group_values L []) st1))%list).
Proof.
  intros [Hwait Hall].
  unfold fill_radio_matrix_page.
  assert (Hw : try_except (bind (wait_for_selector D radio_selector timeout)
                             (fun _ => ret true)) is_timeout (fun _ => ret false) st
               = (Ret true,
                  {| world := snd (d_wait_for_selector D radio_selector timeout (world st));
                     gen := gen st |},
                  [EWaitForSelector radio_selector timeout])).
  { unfold try_except, bind, wait_for_selector, invoke, ret.
    specialize (Hwait timeout (world st)).
    destruct (d_wait_for_selector D radio_selector timeout (world st)) as [o w].
    simpl in Hwait. subst o. reflexivity. }
  rewrite (bind_ret _ _ _ _ _ _ Hw).
  set (st0 := {| world := snd (d_wait_for_selector D _ _ _); gen := gen st |}).
  destruct (Hall (world st0)) as [hs [Hq HF]].
  assert (Hqa : query_selector_all D radio_selector st0
                = (Ret hs, {| world := snd (d_query_selector_all D radio_selector (world st0));
                              gen := gen st |},
                   [EQuerySelectorAll radio_selector])).
  { unfold query_selector_all, invoke.
    destruct (d_query_selector_all D radio_selector (world st0)) as [o w].
    simpl in Hq. subst o. reflexivity. }
  rewrite (bind_ret _ _ _ _ _ _ Hqa).
  set (st00 := {| world := snd (d_query_selector_all D _ _); gen := gen st |}).
  destruct (collect_values_run hs L HF [] st00) as [st1 [evs [Hrun [Hg [Q1 [Q2 [Q3 Q4]]]]]]].
  rewrite (bind_ret _ _ _ _ _ _ Hrun).
  exists st1, (EWaitForSelector radio_selector timeout
               :: EQuerySelectorAll radio_selector :: evs).
  split; [| split].
  - repeat split; simpl; assumption.
  - exact Hg.
  - unfold out, final, emitted. simpl. reflexivity.
Qed.

Lemma label_page_run (L : list radio) (st : state W R) :
  presents D L ->
  exists st1 pre,
    quiet pre /\ gen st1 = gen st /\
    fill_page_5_or_7 D G st
    = (out (click_groups D G (group_options L []) st1),
       final (click_groups D G (group_options L []) st1),
       (pre ++ emitted (click_groups D G (group_options L []) st1))%list).
Proof.
  intros [Hwait Hall].
  unfold fill_page_5_or_7.
  assert (Hw : try_except (bind (wait_for_selector D radio_selector 5000)
                             (fun _ => ret true)) is_timeout (fun _ => ret false) st
               = (Ret true,
                  {| world := snd (d_wait_for_selector D radio_selector 5000 (world st));
                     gen := gen st |},
                  [EWaitForSelector radio_selector 5000])).
  { unfold try_except, bind, wait_for_selector, invoke, ret.
    specialize (Hwait 5000%Z (world st)).
    destruct (d_wait_for_selector D radio_selector 5000 (world st)) as [o w].
    simpl in Hwait. subst o. reflexivity. }
  rewrite (bind_ret _ _ _ _ _ _ Hw).
  set (st0 := {| world := snd (d_wait_for_selector D _ _ _); gen := gen st |}).
  destruct (Hall (world st0)) as [hs [Hq HF]].
  assert (Hqa : query_selector_all D radio_selector st0
                = (Ret hs, {| world := snd (d_query_selector_all D radio_selector (world st0));
                              gen := gen st |},
                   [EQuerySelectorAll radio_selector])).
  { unfold query_selector_all, invoke.
    destruct (d_query_selector_all D radio_selector (world st0)) as [o w].
    simpl in Hq. subst o. reflexivity. }
  rewrite (bind_ret _ _ _ _ _ _ Hqa).
  set (st00 := {| world := snd (d_query_selector_all D _ _); gen := gen st |}).
  destruct (collect_options_run hs L HF [] st00) as [st1 [evs [Hrun [Hg [Q1 [Q2 [Q3 Q4]]]]]]].
  rewrite (bind_ret _ _ _ _ _ _ Hrun).
  exists st1, (EWaitForSelector radio_selector 5000
               :: EQuerySelectorAll radio_selector :: evs).
  split; [| split].
  - repeat split; simpl; assumption.
  - exact Hg.
  - unfold out, final, emitted. simpl. reflexivity.
Qed.

End Discovery.

(** ** Scripted pages *)

Lemma nth_error_seq_Forall2 (L pre : list radio) :
  Forall2 (fun h r => nth_error (pre ++ L) h = Some r)
    (seq (List.length pre) (List.length L)) L.
Proof.
  revert pre. induction L as [| r L IH]; intro pre; simpl; constructor.
  - rewrite nth_error_app2 by lia. rewrite Nat.sub_diag. reflexivity.
  - specialize (IH (pre ++ [r])%list).
    rewrite length_app, <- app_assoc in IH. simpl in IH.
    rewrite Nat.add_1_r in IH. exact IH.
Qed.

(** A scripted page whose reads never fail presents its radios. *)
Lemma scripted_presents (p : page) :
  (forall n sel t, reacts p n (EWaitForSelector sel t) = Ret tt) ->
  (forall n sel, reacts p n (EQuerySelectorAll sel) = Ret tt) ->
  (forall n h attr, reacts p n (EGetAttribute h attr) = Ret tt) ->
  presents (scripted p) (radios p).
Proof.
  intros Hw Hq Hg. split.
  - intros t w. simpl. apply Hw.
  - intro w. exists (seq 0 (List.length (radios p))). split.
    + simpl. rewrite Hq. reflexivity.
    + pose proof (nth_error_seq_Forall2 (radios p) []) as HF. simpl in HF.
      eapply Forall2_impl; [| exact HF].
      intros h r Hnth attr w1. simpl. rewrite Hg, Hnth. reflexivity.
Qed.

(** ** The Label-Click Filler *)

(** C6, as the claim states it, fails on the console line of a click that
    raises: the line is an error line, not a warning.  Here the generator
    draws the first option, the click on its label is intercepted, and the
    filler returns normally after printing one error line. *)
Lemma label_click_exception_prints_error :
  let run := fill_page_5_or_7 (scripted intercepted) counter {| world := 0; gen := 0 |} in
  out run = Ret tt /\
  clicks (emitted run) = [label_selector "a"] /\
  console (emitted run)
    = [err_clicking (label_selector "a")
         (PyException "element intercepts pointer events")] /\
  map is_warning (console (emitted run)) = [false] /\
  map is_error (console (emitted run)) = [true].
Proof.
  vm_compute. repeat split; reflexivity.
Qed.

Lemma group_options_spec (L : list radio) (name : string) (opts : options) :
  In (name, opts) (group_options L []) ->
  opts = options_of L name /\ opts <> [].
Proof.
  intro Hin. split.
  - rewrite <- (In_get_or [] name opts (group_options L [])
                  (group_options_keys L [] (NoDup_nil _)) Hin).
    rewrite group_options_get. reflexivity.
  - pose proof (group_options_nonempty L [] (Forall_nil _)) as HF.
    rewrite Forall_forall in HF. exact (HF _ Hin).
Qed.

(** C6, amended: on a page that presents the radios [L], the Label-Click
    Filler keeps under each group name the (value, id) pairs of the radios of
    that name, in document order, and runs one loop body per group.  The body
    takes the pair at the index the generator draws below the number of
    pairs, looks up the label keyed on that pair's id and, when it is found,
    clicks it with a bound of 5000 ms.  A label that is not found gives one
    warning line and a normal return with no click; a lookup or click that
    raises gives one error line (not a warning) and a normal return. *)
Theorem label_click_filler {W R : Type} (D : Driver W) (G : Random R)
    (L : list radio) (st : state W R) :
  presents D L ->
  let groups := group_options L [] in
  (forall name opts, In (name, opts) groups ->
     opts = options_of L name /\ opts <> []) /\
  (exists st1 pre,
     quiet pre /\ gen st1 = gen st /\
     out (fill_page_5_or_7 D G st) = Ret tt /\
     emitted (fill_page_5_or_7 D G st)
       = (pre ++ emitted (click_groups D G groups st1))%list) /\
  (forall name opts rest (s : state W R), opts <> [] ->
     emitted (click_groups D G ((name, opts) :: rest) s)
     = (emitted (click_group D G name opts s)
        ++ emitted (click_groups D G rest (final (click_group D G name opts s))))%list) /\
  (forall name opts (s : state W R), opts <> [] ->
     exists chosen,
       pick G opts (gen s) = Some chosen /\ In chosen opts /\
       let sel := label_selector (snd chosen) in
       let g := drawn G (List.length opts) (gen s) in
       click_group D G name opts s
       = match d_query_selector D sel (world s) with
         | (Ret (Some _), w1) =>
             match d_click D sel 5000 w1 with
             | (Ret _, w2) =>
                 (Ret tt, {| world := w2; gen := g |},
                  [EQuerySelector sel; EClick sel 5000])
             | (Raise e, w2) =>
                 (Ret tt, {| world := w2; gen := g |},
                  [EQuerySelector sel; EClick sel 5000; EPrint (err_clicking sel e)])
             end
         | (Ret None, w1) =>
             (Ret tt, {| world := w1; gen := g |},
              [EQuerySelector sel; EPrint (warn_no_label (snd chosen))])
         | (Raise e, w1) =>
             (Ret tt, {| world := w1; gen := g |},
              [EQuerySelector sel; EPrint (err_clicking sel e)])
         end) /\
  (forall chosen_id, is_warning (warn_no_label chosen_id) = true) /\
  (forall sel e, is_error (err_clicking sel e) = true /\
                 is_warning (err_clicking sel e) = false).
Proof.
  intros Hp groups. repeat apply conj.
  - intros name opts Hin. apply group_options_spec. exact Hin.
  - destruct (label_page_run D G L st Hp) as [st1 [pre [Hq [Hg Hrun]]]].
    exists st1, pre. split; [exact Hq |]. split; [exact Hg |].
    rewrite Hrun. unfold out at 1, emitted at 1. simpl. split; [| reflexivity].
    apply click_groups_returns. apply group_options_nonempty. constructor.
  - intros. apply click_groups_cons. assumption.
  - intros name opts s Hne. apply click_group_run. exact Hne.
  - reflexivity.
  - intros sel e. split; reflexivity.
Qed.

Lemma label_click_filler_witness :
  let D := scripted two_options in
  let st := {| world := 0; gen := 1 |} in
  (forall name opts, In (name, opts) (group_options (radios two_options) []) ->
     opts = options_of (radios two_options) name /\ opts <> []) /\
  out (fill_page_5_or_7 D counter st) = Ret tt /\
  clicks (emitted (fill_page_5_or_7 D counter st)) = [label_selector "b"].
Proof.
  intros D st.
  destruct (label_click_filler D counter (radios two_options) st) as [Hg [Hrun _]].
  - apply scripted_presents; reflexivity.
  - split; [exact Hg |].
    destruct Hrun as [st1 [pre [_ [_ [Ho _]]]]].
    split; [exact Ho | reflexivity].
Defined.

(** ** Radios without a name, a value or an id *)

Lemma group_values_app (pre post : list radio) :
  forall groups, group_values (pre ++ post) groups
                 = group_values post (group_values pre groups).
Proof.
  induction pre as [| r pre IH]; intro groups; simpl; [reflexivity |].
  destruct (negb (attr_truthy (r_name r)) || negb (attr_truthy (r_value r)));
    apply IH.
Qed.

Lemma group_options_app (pre post : list radio) :
  forall groups, group_options (pre ++ post) groups
                 = group_options post (group_options pre groups).
Proof.
  induction pre as [| r pre IH]; intro groups; simpl; [reflexivity |].
  destruct (negb (attr_truthy (r_name r)) || negb (attr_truthy (r_value r))
            || negb (attr_truthy (r_id r))); apply IH.
Qed.

Lemma group_values_key (L : list radio) :
  forall groups n,
    In n (map fst (group_values L groups)) ->
    In n (map fst groups) \/
    exists r, In r L /\ attr_truthy (r_name r) = true /\
              attr_truthy (r_value r) = true /\ r_name r = Some n.
Proof.
  induction L as [| r rest IH]; intros groups n Hin; simpl in Hin; [left; exact Hin |].
  destruct (attr_truthy (r_name r)) eqn:En, (attr_truthy (r_value r)) eqn:Ev;
    simpl in Hin;
    try (destruct (IH _ _ Hin) as [Hk | [r' [Hr' Hc]]];
         [left; exact Hk | right; exists r'; split; [right; exact Hr' | exact Hc]]).
  destruct (IH _ _ Hin) as [Hk | [r' [Hr' Hc]]].
  - rewrite keys_setdefault_put in Hk.
    destruct (mem (attr_text (r_name r)) (map fst groups)); [left; exact Hk |].
    apply in_app_or in Hk. destruct Hk as [Hk | [Hk | []]]; [left; exact Hk |].
    right. exists r. split; [left; reflexivity |]. repeat split; try assumption.
    destruct (r_name r) as [s |]; [simpl in Hk; subst; reflexivity | discriminate].
  - right. exists r'. split; [right; exact Hr' | exact Hc].
Qed.

Lemma group_options_key (L : list radio) :
  forall groups n,
    In n (map fst (group_options L groups)) ->
    In n (map fst groups) \/
    exists r, In r L /\ attr_truthy (r_name r) = true /\
              attr_truthy (r_value r) = true /\ attr_truthy (r_id r) = true /\
              r_name r = Some n.
Proof.
  induction L as [| r rest IH]; intros groups n Hin; simpl in Hin; [left; exact Hin |].
  destruct (attr_truthy (r_name r)) eqn:En, (attr_truthy (r_value r)) eqn:Ev,
    (attr_truthy (r_id r)) eqn:Ei;
    simpl in Hin;
    try (destruct (IH _ _ Hin) as [Hk | [r' [Hr' Hc]]];
         [left; exact Hk | right; exists r'; split; [right; exact Hr' | exact Hc]]).
  destruct (IH _ _ Hin) as [Hk | [r' [Hr' Hc]]].
  - rewrite keys_setdefault_put in Hk.
    destruct (mem (attr_text (r_name r)) (map fst groups)); [left; exact Hk |].
    apply in_app_or in Hk. destruct Hk as [Hk | [Hk | []]]; [left; exact Hk |].
    right. exists r. split; [left; reflexivity |]. repeat split; try assumption.
    destruct (r_name r) as [s |]; [simpl in Hk; subst; reflexivity | discriminate].
  - right. exists r'. split; [right; exact Hr' | exact Hc].
Qed.

Lemma group_values_none (L : list radio) :
  (forall r, In r L -> r_name r = None \/ r_value r = None) ->
  forall groups, group_values L groups = groups.
Proof.
  induction L as [| r rest IH]; intros Hall groups; simpl; [reflexivity |].
  assert (Hskip : negb (attr_truthy (r_name r)) || negb (attr_truthy (r_value r)) = true).
  { destruct (Hall r (or_introl eq_refl)) as [E | E]; rewrite E; simpl;
      [reflexivity | apply orb_true_r]. }
  rewrite Hskip. apply IH. intros r' Hr'. apply Hall. right. exact Hr'.
Qed.

Lemma group_options_none (L : list radio) :
  (forall r, In r L -> r_name r = None \/ r_value r = None \/ r_id r = None) ->
  forall groups, group_options L groups = groups.
Proof.
  induction L as [| r rest IH]; intros Hall groups; simpl; [reflexivity |].
  assert (Hskip : negb (attr_truthy (r_name r)) || negb (attr_truthy (r_value r))
                  || negb (attr_truthy (r_id r)) = true).
  { destruct (Hall r (or_introl eq_refl)) as [E | [E | E]]; rewrite E; simpl;
      rewrite ?orb_true_r; reflexivity. }
  rewrite Hskip. apply IH. intros r' Hr'. apply Hall. right. exact Hr'.
Qed.

(** C10: a radio without a name or without a value leaves the groups of the
    Radio-Matrix Filler as they are without it, and so does a radio without a
    name, a value or an id for the Label-Click Filler.  A name whose radios
    all lack the attribute is no key of the groups, so no loop body runs for
    it.  On a page that presents [L], all that either filler emits before its
    second loop is quiet: no lookup, no action, no console line; and when
    every radio of the page lacks an attribute, the whole run is quiet and
    returns normally. *)
Theorem incomplete_radios_are_skipped {W R : Type} (D : Driver W) (G : Random R)
    (H : Hashing) (L : list radio) (st : state W R) :
  presents D L ->
  (forall pre r post groups, r_name r = None \/ r_value r = None ->
     group_values (pre ++ r :: post) groups = group_values (pre ++ post) groups) /\
  (forall pre r post groups, r_name r = None \/ r_value r = None \/ r_id r = None ->
     group_options (pre ++ r :: post) groups = group_options (pre ++ post) groups) /\
  (forall n, (forall r, In r L -> r_name r = Some n -> r_value r = None) ->
     ~ In n (map fst (group_values L []))) /\
  (forall n, (forall r, In r L -> r_name r = Some n ->
                        r_value r = None \/ r_id r = None) ->
     ~ In n (map fst (group_options L []))) /\
  (exists st1 pre,
     quiet pre /\
     emitted (fill_radio_matrix_page D G H 5000 st)
       = (pre ++ emitted (check_groups D G H (group_values L []) st1))%list) /\
  (exists st1 pre,
     quiet pre /\
     emitted (fill_page_5_or_7 D G st)
       = (pre ++ emitted (click_groups D G (group_options L []) st1))%list) /\
  ((forall r, In r L -> r_name r = None \/ r_value r = None) ->
     out (fill_radio_matrix_page D G H 5000 st) = Ret tt /\
     quiet (emitted (fill_radio_matrix_page D G H 5000 st))) /\
  ((forall r, In r L -> r_name r = None \/ r_value r = None \/ r_id r = None) ->
     out (fill_page_5_or_7 D G st) = Ret tt /\
     quiet (emitted (fill_page_5_or_7 D G st))).
Proof.
  intro Hp.
  destruct (matrix_page_run D G H L 5000 st Hp) as [sm [prem [Qm [_ Hm]]]].
  destruct (label_page_run D G L st Hp) as [sl [prel [Ql [_ Hl]]]].
  repeat apply conj.
  - intros pre r post groups Hlack.
    rewrite !group_values_app. simpl.
    destruct Hlack as [E | E]; rewrite E; simpl; rewrite ?orb_true_r; reflexivity.
  - intros pre r post groups Hlack.
    rewrite !group_options_app. simpl.
    destruct Hlack as [E | [E | E]]; rewrite E; simpl; rewrite ?orb_true_r; reflexivity.
  - intros n Hall Hin.
    destruct (group_values_key L [] n Hin) as [[] | [r [Hr [_ [Hv Hn]]]]].
    rewrite (Hall r Hr Hn) in Hv. discriminate.
  - intros n Hall Hin.
    destruct (group_options_key L [] n Hin) as [[] | [r [Hr [_ [Hv [Hi Hn]]]]]].
    destruct (Hall r Hr Hn) as [E | E]; [rewrite E in Hv | rewrite E in Hi]; discriminate.
  - exists sm, prem. split; [exact Qm |]. rewrite Hm. reflexivity.
  - exists sl, prel. split; [exact Ql |]. rewrite Hl. reflexivity.
  - intro Hall. rewrite Hm, (group_values_none L Hall). unfold out, emitted. simpl.
    rewrite app_nil_r. split; [reflexivity | exact Qm].
  - intro Hall. rewrite Hl, (group_options_none L Hall). unfold out, emitted. simpl.
    rewrite app_nil_r. split; [reflexivity | exact Ql].
Qed.

Lemma incomplete_radios_are_skipped_witness :
  let D := scripted ragged_matrix in
  let st := {| world := 0; gen := 0 |} in
  group_values (radios ragged_matrix) [] = [("q1", ["1"; "2"; "3"])] /\
  group_options (radios ragged_matrix) [] = [("q1", [("1", "q1_1"); ("3", "q1_3")])] /\
  ~ In "q2" (map fst (group_values (radios ragged_matrix) [])) /\
  ~ In "q2" (map fst (group_options (radios ragged_matrix) [])) /\
  console (emitted (fill_radio_matrix_page D counter insertion_order 5000 st)) = [] /\
  console (emitted (fill_page_5_or_7 D counter st)) = [].
Proof.
  intros D st.
  destruct (incomplete_radios_are_skipped D counter insertion_order
              (radios ragged_matrix) st) as [_ [_ [Hv [Ho _]]]].
  - apply scripted_presents; reflexivity.
  - split; [reflexivity |]. split; [reflexivity |].
    split; [apply Hv | split; [apply Ho |]].
    + intros r Hr Hn. simpl in Hr.
      repeat (destruct Hr as [Hr | Hr]; [subst r; simpl in Hn |- *;
                                         try discriminate; try reflexivity |]).
      contradiction.
    + intros r Hr Hn. simpl in Hr.
      repeat (destruct Hr as [Hr | Hr]; [subst r; simpl in Hn |- *;
                                         try discriminate; try (left; reflexivity) |]).
      contradiction.
    + split; reflexivity.
Defined.

(** ** The walk through the pages *)

Section Walk.

Context {W R : Type}.
Variable D : Driver W.
Variable G : Random R.
Variable H : Hashing.

Lemma steps_app (a b : list event) : steps (a ++ b) = (steps a ++ steps b)%list.
Proof. apply filter_app. Qed.

Lemma bind_ext {A B : Type} (m : M W R A) (k k' : A -> M W R B) (st : state W R) :
  (forall a s, k a s = k' a s) -> bind m k st = bind m k' st.
Proof.
  intro E. unfold bind. destruct (m st) as [[[a | e] st1] ev1]; [| reflexivity].
  rewrite E. reflexivity.
Qed.

Lemma bind_ret_r {A : Type} (m : M W R A) (st : state W R) :
  bind m (fun a => ret a) st = m st.
Proof.
  unfold bind, ret. destruct (m st) as [[[a | e] st1] ev1]; [| reflexivity].
  rewrite app_nil_r. reflexivity.
Qed.

Lemma bind_unit_ret_r (m : M W R unit) (st : state W R) :
  bind m (fun _ => ret tt) st = m st.
Proof.
  unfold bind, ret. destruct (m st) as [[[[] | e] st1] ev1]; [| reflexivity].
  rewrite app_nil_r. reflexivity.
Qed.

(** The events of a sequence whose end is normal. *)
Lemma bind_normal {A B : Type} (m : M W R A) (k : A -> M W R B) (st : state W R)
    (b : B) :
  out (bind m k st) = Ret b ->
  exists a,
    out (m st) = Ret a /\
    out (k a (final (m st))) = Ret b /\
    emitted (bind m k st) = (emitted (m st) ++ emitted (k a (final (m st))))%list.
Proof.
  rewrite bind_run. destruct (out (m st)) as [a | e]; [| discriminate].
  intro Ho. exists a. repeat split. exact Ho.
Qed.

Lemma steps_pause (st : state W R) :
  out (pause D st) = Ret tt /\ steps (emitted (pause D st)) = [EWaitForTimeout 1000].
Proof.
  unfold pause, try_except, wait_for_timeout, invoke, ret, out, emitted.
  destruct (d_wait_for_timeout D 1000 (world st)) as [[[] | e] w]; split; reflexivity.
Qed.

Lemma steps_click_continue (st : state W R) :
  steps (emitted (click_continue D st)) = [EClick submit_selector 5000].
Proof.
  unfold click_continue, try_except, click, invoke, print, emitted.
  destruct (d_click D submit_selector 5000 (world st)) as [[[] | [m | m]] w];
    reflexivity.
Qed.

Lemma steps_fill_field (f : string) (v : pyvalue) (st : state W R) :
  steps (emitted (fill_field D f v st)) = [].
Proof.
  unfold fill_field, try_except, bind, query_selector, fill, select_option,
    invoke, print, emitted, any_exception.
  destruct (d_query_selector D (selector_input f) (world st)) as [[[h |] | e] wq];
    simpl; try reflexivity.
  - destruct (d_fill D _ _ wq) as [[[] | e] wf]; reflexivity.
  - destruct (d_query_selector D (selector_select f) wq) as [[[h |] | e] ws];
      simpl; try reflexivity.
    destruct (d_select_option D _ _ ws) as [[[] | e] wo]; reflexivity.
Qed.

Lemma steps_fill_fields (person_data : person) :
  forall st : state W R, steps (emitted (fill_fields D person_data st)) = [].
Proof.
  induction person_data as [| [f v] rest IH]; intro st; [reflexivity |].
  rewrite fill_fields_cons, steps_app, steps_fill_field, IH. reflexivity.
Qed.

Lemma steps_fill_first_page (person_data : person) (st : state W R) :
  steps (emitted (fill_first_page D person_data st)) = [EClick submit_selector 5000].
Proof.
  unfold fill_first_page. rewrite bind_run, fill_fields_returns.
  unfold emitted at 1. simpl snd. rewrite steps_app, steps_fill_fields.
  unfold try_except, click, invoke, print, emitted.
  destruct (d_click D submit_selector 5000 _) as [[[] | [m | m]] w]; reflexivity.
Qed.

Lemma steps_bind {A B : Type} (m : M W R A) (k : A -> M W R B) (st : state W R) :
  steps (emitted (bind m k st))
  = (steps (emitted (m st))
     ++ match out (m st) with
        | Ret a => steps (emitted (k a (final (m st))))
        | Raise _ => []
        end)%list.
Proof.
  rewrite bind_run. destruct (out (m st)) as [a | e]; unfold emitted at 1; simpl.
  - apply steps_app.
  - rewrite app_nil_r. reflexivity.
Qed.

Lemma emitted_invoke {A : Type} (ev : event) (f : W -> outcome A * W) (st : state W R) :
  emitted (invoke ev f st) = [ev].
Proof. unfold invoke, emitted. destruct (f (world st)). reflexivity. Qed.

Lemma steps_collect_values (hs : list handle) :
  forall groups (st : state W R),
    steps (emitted (collect_values D hs groups st)) = [].
Proof.
  induction hs as [| h hs IH]; intros groups st; [reflexivity |].
  simpl collect_values. rewrite steps_bind.
  unfold get_attribute at 1. rewrite emitted_invoke. simpl.
  destruct (out (get_attribute D h "name" st)) as [n | e]; [| reflexivity].
  rewrite steps_bind.
  unfold get_attribute at 1. rewrite emitted_invoke. simpl.
  destruct (out (get_attribute D h "value" _)) as [v | e]; [| reflexivity].
  destruct (negb (attr_truthy n) || negb (attr_truthy v)); apply IH.
Qed.

Lemma steps_collect_options (hs : list handle) :
  forall groups (st : state W R),
    steps (emitted (collect_options D hs groups st)) = [].
Proof.
  induction hs as [| h hs IH]; intros groups st; [reflexivity |].
  simpl collect_options. rewrite steps_bind.
  unfold get_attribute at 1. rewrite emitted_invoke. simpl.
  destruct (out (get_attribute D h "name" st)) as [n | e]; [| reflexivity].
  rewrite steps_bind.
  unfold get_attribute at 1. rewrite emitted_invoke. simpl.
  destruct (out (get_attribute D h "value" _)) as [v | e]; [| reflexivity].
  rewrite steps_bind.
  unfold get_attribute at 1. rewrite emitted_invoke. simpl.
  destruct (out (get_attribute D h "id" _)) as [i | e]; [| reflexivity].
  destruct (negb (attr_truthy n) || negb (attr_truthy v) || negb (attr_truthy i));
    apply IH.
Qed.

Lemma steps_random_choice {A : Type} (seq : list A) (st : state W R) :
  emitted (random_choice G seq st) = [].
Proof.
  unfold random_choice, emitted. destruct seq as [| d seq']; [reflexivity |].
  destruct (randbelow G _ (gen st)). reflexivity.
Qed.

Lemma steps_check_group (name : string) (V : pyset) (st : state W R) :
  steps (emitted (check_group D G H name V st)) = [].
Proof.
  unfold check_group. rewrite steps_bind, steps_random_choice. simpl.
  destruct (out (random_choice G (set_iter H V) st)) as [v | e]; [| reflexivity].
  unfold try_except, bind, query_selector, check, invoke, print, emitted,
    any_exception.
  destruct (d_query_selector D _ _) as [[[h |] | e] w1]; simpl; try reflexivity.
  destruct (d_check D _ w1) as [[[] | e] w2]; reflexivity.
Qed.

Lemma steps_click_group (name : string) (opts : options) (st : state W R) :
  steps (emitted (click_group D G name opts st)) = [].
Proof.
  unfold click_group. rewrite steps_bind, steps_random_choice. simpl.
  destruct (out (random_choice G opts st)) as [c | e]; [| reflexivity].
  unfold try_except, bind, query_selector, click, invoke, print, emitted,
    any_exception.
  destruct (d_query_selector D _ _) as [[[h |] | e] w1]; simpl; try reflexivity.
  destruct (d_click D _ 5000 w1) as [[[] | e] w2]; reflexivity.
Qed.

Lemma steps_check_groups (groups : list (string * pyset)) :
  forall st : state W R, steps (emitted (check_groups D G H groups st)) = [].
Proof.
  induction groups as [| [name V] rest IH]; intro st; [reflexivity |].
  simpl check_groups. rewrite steps_bind, steps_check_group. simpl.
  destruct (out (check_group D G H name V st)); [apply IH | reflexivity].
Qed.

Lemma steps_click_groups (groups : list (string * options)) :
  forall st : state W R, steps (emitted (click_groups D G groups st)) = [].
Proof.
  induction groups as [| [name opts] rest IH]; intro st; [reflexivity |].
  simpl click_groups. rewrite steps_bind, steps_click_group. simpl.
  destruct (out (click_group D G name opts st)); [apply IH | reflexivity].
Qed.

Lemma steps_radio_wait (timeout : Z) (st : state W R) :
  steps (emitted (try_except
                    (bind (wait_for_selector D radio_selector timeout)
                       (fun _ => ret true))
                    is_timeout (fun _ => ret false) st))
  = [EWaitForSelector radio_selector timeout].
Proof.
  unfold try_except, bind, wait_for_selector, invoke, ret, emitted.
  destruct (d_wait_for_selector D radio_selector timeout (world st))
    as [[[] | [m | m]] w]; reflexivity.
Qed.

Lemma steps_matrix_page (timeout : Z) (st : state W R) :
  steps (emitted (fill_radio_matrix_page D G H timeout st))
  = [EWaitForSelector radio_selector timeout].
Proof.
  unfold fill_radio_matrix_page. rewrite steps_bind, steps_radio_wait.
  destruct (out _) as [[|] | e]; simpl; try reflexivity.
  rewrite steps_bind. unfold query_selector_all at 1. rewrite emitted_invoke. simpl.
  destruct (out (query_selector_all D radio_selector _)) as [hs | e]; [| reflexivity].
  rewrite steps_bind, steps_collect_values. simpl.
  destruct (out (collect_values D hs [] _)) as [groups | e]; [| reflexivity].
  rewrite steps_check_groups. reflexivity.
Qed.

Lemma steps_label_page (st : state W R) :
  steps (emitted (fill_page_5_or_7 D G st))
  = [EWaitForSelector radio_selector 5000].
Proof.
  unfold fill_page_5_or_7. rewrite steps_bind, steps_radio_wait.
  destruct (out _) as [[|] | e]; simpl; try reflexivity.
  rewrite steps_bind. unfold query_selector_all at 1. rewrite emitted_invoke. simpl.
  destruct (out (query_selector_all D radio_selector _)) as [hs | e]; [| reflexivity].
  rewrite steps_bind, steps_collect_options. simpl.
  destruct (out (collect_options D hs [] _)) as [groups | e]; [| reflexivity].
  rewrite steps_click_groups. reflexivity.
Qed.

Lemma steps_fill_strategy (s : strategy) (st : state W R) :
  steps (emitted (fill_strategy D G H s st))
  = [EWaitForSelector radio_selector 5000].
Proof.
  destruct s; [apply steps_matrix_page | apply steps_label_page].
Qed.

(** The steps of a run of transitions that ends normally: the three steps
    of a transition, once per page. *)
Lemma steps_transitions (pages : list (nat * strategy)) :
  forall st : state W R,
    out (transitions D G H pages st) = Ret tt ->
    steps (emitted (transitions D G H pages st))
    = List.concat (map (fun _ => transition_steps) pages).
Proof.
  induction pages as [| [n s] rest IH]; intros st Hout; [reflexivity |].
  simpl transitions in *.
  apply bind_normal in Hout. destruct Hout as [[] [_ [Hout E1]]].
  rewrite E1, steps_app. clear E1.
  apply bind_normal in Hout. destruct Hout as [[] [_ [Hout E2]]].
  rewrite E2, steps_app. clear E2.
  apply bind_normal in Hout. destruct Hout as [[] [_ [Hout E3]]].
  rewrite E3, steps_app. clear E3.
  rewrite (proj2 (steps_pause st)), steps_fill_strategy, steps_click_continue.
  rewrite (IH _ Hout). reflexivity.
Qed.

(** The loop body lists the pages as the transitions do. *)
Lemma walk_pages_transitions (st : state W R) :
  bind (pause D) (fun _ => walk_pages D G H) st
  = transitions D G H later_pages st.
Proof.
  unfold walk_pages, later_pages. simpl transitions. unfold fill_strategy.
  repeat (apply bind_ext; intros ? ?).
  symmetry. apply bind_unit_ret_r.
Qed.

Lemma goto_normal (st : state W R) :
  out (try_except (bind (goto D SITE_URL 30000) (fun _ => ret true)) is_timeout
         (fun _ => bind (print "[ERROR] Could not load page 1. Check SITE_URL.")
                     (fun _ => bind (browser_close D) (fun _ => ret false))) st)
    = Ret true ->
  emitted (try_except (bind (goto D SITE_URL 30000) (fun _ => ret true)) is_timeout
             (fun _ => bind (print "[ERROR] Could not load page 1. Check SITE_URL.")
                         (fun _ => bind (browser_close D) (fun _ => ret false))) st)
    = [EGoto SITE_URL 30000].
Proof.
  unfold try_except, bind, goto, browser_close, invoke, print, ret, out, emitted.
  destruct (d_goto D SITE_URL 30000 (world st)) as [[[] | [m | m]] w]; simpl;
    try reflexivity; try discriminate.
  destruct (d_close D w) as [[[] | e] wc]; simpl; discriminate.
Qed.

Lemma container_normal (st : state W R) :
  out (try_except (bind (wait_for_selector D container_selector 10000)
                     (fun _ => ret true)) is_timeout
         (fun _ => bind (print "[ERROR] '#form_container' not found on page 1.")
                     (fun _ => bind (browser_close D) (fun _ => ret false))) st)
    = Ret true ->
  emitted (try_except (bind (wait_for_selector D container_selector 10000)
                         (fun _ => ret true)) is_timeout
             (fun _ => bind (print "[ERROR] '#form_container' not found on page 1.")
                         (fun _ => bind (browser_close D) (fun _ => ret false))) st)
    = [EWaitForSelector container_selector 10000].
Proof.
  unfold try_except, bind, wait_for_selector, browser_close, invoke, print, ret,
    out, emitted.
  destruct (d_wait_for_selector D container_selector 10000 (world st))
    as [[[] | [m | m]] w]; simpl; try reflexivity; try discriminate.
  destruct (d_close D w) as [[[] | e] wc]; simpl; discriminate.
Qed.

End Walk.

(** C2: a turn of the loop over the people that runs to its end emits the
    banner, the navigation to page 1 and the wait for its container, then
    the events of the Page-1 Filler, then those of the seven transitions into
    pages 2 to 8 in this order (matrix, matrix, matrix, label-click, matrix,
    label-click, matrix), each one the 1000 ms pause, the page's fill
    strategy and the Continue action, and last the line that closes the
    record.  What the loop body runs after page 1 is these transitions; and
    the steps among the events are one navigation, one container wait, the
    submit click of page 1, and once per later page a pause, a wait for the
    radios and a submit click: no page is skipped or visited twice. *)
Theorem fixed_page_order {W R : Type} (D : Driver W) (G : Random R) (H : Hashing)
    (idx : nat) (person_data : person) (st : state W R) :
  out (process_person D G H idx person_data st) = Ret NextPerson ->
  (forall s, bind (pause D) (fun _ => walk_pages D G H) s
             = transitions D G H later_pages s) /\
  (exists s1 s2 : state W R,
     emitted (process_person D G H idx person_data st)
     = ([EPrint (banner idx); EGoto SITE_URL 30000;
         EWaitForSelector container_selector 10000]
        ++ emitted (fill_first_page D person_data s1)
        ++ emitted (transitions D G H later_pages s2)
        ++ [EPrint (done_line idx)])%list) /\
  steps (emitted (process_person D G H idx person_data st))
  = ([EGoto SITE_URL 30000; EWaitForSelector container_selector 10000;
      EClick submit_selector 5000]
     ++ List.concat (map (fun _ => transition_steps) later_pages))%list.
Proof.
  intro Hout.
  split; [intro s; apply walk_pages_transitions |].
  unfold process_person in *.
  apply bind_normal in Hout. destruct Hout as [[] [_ [Hout E0]]].
  rewrite E0. clear E0.
  apply bind_normal in Hout. destruct Hout as [loaded [Hgoto [Hout E1]]].
  rewrite E1. clear E1.
  destruct loaded; cbn beta iota delta [negb] in Hout |- *;
    [| unfold ret, out in Hout; simpl in Hout; discriminate].
  rewrite (goto_normal D _ Hgoto).
  apply bind_normal in Hout. destruct Hout as [present [Hwait [Hout E2]]].
  rewrite E2. clear E2.
  destruct present; cbn beta iota delta [negb] in Hout |- *;
    [| unfold ret, out in Hout; simpl in Hout; discriminate].
  rewrite (container_normal D _ Hwait).
  apply bind_normal in Hout. destruct Hout as [[] [_ [Hout E3]]].
  rewrite E3. clear E3.
  match type of Hout with
  | out (bind (pause D) ?k ?s) = _ =>
      assert (Hre : bind (pause D) k s
                    = bind (bind (pause D) (fun _ => walk_pages D G H))
                        (fun _ => bind (print (done_line idx)) (fun _ => ret NextPerson)) s)
        by (rewrite bind_assoc; reflexivity);
      rewrite Hre in *; clear Hre
  end.
  apply bind_normal in Hout. destruct Hout as [[] [Hwalk [Hout E4]]].
  rewrite E4. clear E4.
  rewrite walk_pages_transitions in *.
  split.
  - eexists _, _. unfold print at 1. unfold emitted at 1. simpl.
    unfold bind at 2. unfold print, ret, emitted at 4. simpl. reflexivity.
  - rewrite !steps_app, steps_fill_first_page, (steps_transitions D G H _ _ Hwalk).
    reflexivity.
Qed.

Lemma fixed_page_order_witness :
  steps (emitted (process_person (scripted survey) counter insertion_order 1
                    [("element_2", PyStr "Ali")] {| world := 0; gen := 0 |}))
  = [EGoto SITE_URL 30000; EWaitForSelector container_selector 10000;
     EClick submit_selector 5000;
     EWaitForTimeout 1000; EWaitForSelector radio_selector 5000; EClick submit_selector 5000;
     EWaitForTimeout 1000; EWaitForSelector radio_selector 5000; EClick submit_selector 5000;
     EWaitForTimeout 1000; EWaitForSelector radio_selector 5000; EClick submit_selector 5000;
     EWaitForTimeout 1000; EWaitForSelector radio_selector 5000; EClick submit_selector 5000;
     EWaitForTimeout 1000; EWaitForSelector radio_selector 5000; EClick submit_selector 5000;
     EWaitForTimeout 1000; EWaitForSelector radio_selector 5000; EClick submit_selector 5000;
     EWaitForTimeout 1000; EWaitForSelector radio_selector 5000; EClick submit_selector 5000].
Proof.
  apply (fixed_page_order (scripted survey) counter insertion_order 1
           [("element_2", PyStr "Ali")] {| world := 0; gen := 0 |}).
  vm_compute. reflexivity.
Defined.

(** ** The second loops *)

Section Choices.

Context {W R : Type}.
Variable D : Driver W.
Variable G : Random R.
Variable H : Hashing.

(** What one body of the second loop of the Radio-Matrix Filler leaves
    behind, whatever the driver answers. *)
Lemma check_group_summary (name : string) (V : pyset) (st : state W R) :
  V <> [] ->
  exists v,
    pick G (set_iter H V) (gen st) = Some v /\ In v V /\
    out (check_group D G H name V st) = Ret tt /\
    gen (final (check_group D G H name V st))
      = drawn G (List.length (set_iter H V)) (gen st) /\
    lookups (emitted (check_group D G H name V st)) = [option_selector name v] /\
    clicks (emitted (check_group D G H name V st)) = [] /\
    checks (emitted (check_group D G H name V st))
      = match fst (d_query_selector D (option_selector name v) (world st)) with
        | Ret (Some _) => [option_selector name v]
        | _ => []
        end.
Proof.
  intro Hne.
  destruct (check_group_run D G H name V st Hne) as [v [Hpick [Hin Hrun]]].
  exists v. split; [exact Hpick |]. split; [exact Hin |].
  simpl in Hrun. rewrite Hrun.
  destruct (d_query_selector D (option_selector name v) (world st))
    as [[[h |] | e] w1]; simpl; try (repeat split; reflexivity).
  destruct (d_check D (option_selector name v) w1) as [[[] | e] w2];
    repeat split; reflexivity.
Qed.

Lemma click_group_summary (name : string) (opts : options) (st : state W R) :
  opts <> [] ->
  exists chosen,
    pick G opts (gen st) = Some chosen /\ In chosen opts /\
    out (click_group D G name opts st) = Ret tt /\
    gen (final (click_group D G name opts st)) = drawn G (List.length opts) (gen st) /\
    lookups (emitted (click_group D G name opts st)) = [label_selector (snd chosen)] /\
    checks (emitted (click_group D G name opts st)) = [] /\
    clicks (emitted (click_group D G name opts st))
      = match fst (d_query_selector D (label_selector (snd chosen)) (world st)) with
        | Ret (Some _) => [label_selector (snd chosen)]
        | _ => []
        end.
Proof.
  intro Hne.
  destruct (click_group_run D G name opts st Hne) as [c [Hpick [Hin Hrun]]].
  exists c. split; [exact Hpick |]. split; [exact Hin |].
  simpl in Hrun. rewrite Hrun.
  destruct (d_query_selector D (label_selector (snd c)) (world st))
    as [[[h |] | e] w1]; simpl; try (repeat split; reflexivity).
  destruct (d_click D (label_selector (snd c)) 5000 w1) as [[[] | e] w2];
    repeat split; reflexivity.
Qed.

(** The lookups of the second loop are the options the generator chooses:
    they depend on the groups and on the generator, not on the driver. *)
Lemma lookups_check_groups (groups : list (string * pyset)) :
  Forall (fun g => snd g <> []) groups ->
  forall st : state W R,
    lookups (emitted (check_groups D G H groups st))
      = map (fun c => option_selector (fst c) (snd c))
          (chosen_values G H groups (gen st)) /\
    List.length (chosen_values G H groups (gen st)) = List.length groups.
Proof.
  induction 1 as [| [name V] rest Hne _ IH]; intro st; [split; reflexivity |].
  simpl in Hne.
  rewrite (check_groups_cons D G H name V rest st Hne), lookups_app.
  destruct (check_group_summary name V st Hne)
    as [v [Hpick [_ [_ [Hgen [Hl _]]]]]].
  simpl chosen_values. rewrite Hpick, Hl.
  destruct (IH (final (check_group D G H name V st))) as [IHl IHn].
  rewrite IHl, Hgen in *. simpl. rewrite IHn. split; reflexivity.
Qed.

Lemma lookups_click_groups (groups : list (string * options)) :
  Forall (fun g => snd g <> []) groups ->
  forall st : state W R,
    lookups (emitted (click_groups D G groups st))
      = map (fun c => label_selector (snd c)) (chosen_options G groups (gen st)) /\
    List.length (chosen_options G groups (gen st)) = List.length groups.
Proof.
  induction 1 as [| [name opts] rest Hne _ IH]; intro st; [split; reflexivity |].
  simpl in Hne.
  rewrite (click_groups_cons D G name opts rest st Hne), lookups_app.
  destruct (click_group_summary name opts st Hne)
    as [c [Hpick [_ [_ [Hgen [Hl _]]]]]].
  simpl chosen_options. rewrite Hpick, Hl.
  destruct (IH (final (click_group D G name opts st))) as [IHl IHn].
  rewrite IHl, Hgen in *. simpl. rewrite IHn. split; reflexivity.
Qed.





End Choices.

(** ** The Radio-Matrix Filler *)


Lemma group_values_nonempty (L : list radio) :
  Forall (fun g : string * pyset => snd g <> []) (group_values L []).
Proof.
  eapply Forall_impl; [| apply (group_values_sets L [] (Forall_nil _))].
  intros g [Hne _]. exact Hne.
Qed.




(** ** Two runs *)

Lemma check_groups_final {W R : Type} (D : Driver W) (G : Random R) (H : Hashing)
    (name : string) (V : pyset) (rest : list (string * pyset)) (st : state W R) :
  V <> [] ->
  final (check_groups D G H ((name, V) :: rest) st)
  = final (check_groups D G H rest (final (check_group D G H name V st))).
Proof.
  intro Hne. simpl. rewrite bind_run, (check_group_returns D G H name V st Hne).
  reflexivity.
Qed.

Lemma click_groups_final {W R : Type} (D : Driver W) (G : Random R)
    (name : string) (opts : options) (rest : list (string * options))
    (st : state W R) :
  opts <> [] ->
  final (click_groups D G ((name, opts) :: rest) st)
  = final (click_groups D G rest (final (click_group D G name opts st))).
Proof.
  intro Hne. simpl. rewrite bind_run, (click_group_returns D G name opts st Hne).
  reflexivity.
Qed.

Section TwoRuns.

Context {W1 W2 R : Type}.
Variable D1 : Driver W1.
Variable D2 : Driver W2.
Variable G : Random R.
Variable H : Hashing.

(** The generator leaves the second loop in the same state under any two
    drivers. *)
Lemma check_groups_gen (groups : list (string * pyset)) :
  Forall (fun g => snd g <> []) groups ->
  forall (st1 : state W1 R) (st2 : state W2 R),
    gen st1 = gen st2 ->
    gen (final (check_groups D1 G H groups st1))
    = gen (final (check_groups D2 G H groups st2)).
Proof.
  induction 1 as [| [name V] rest Hne _ IH]; intros st1 st2 Hg; [exact Hg |].
  simpl in Hne. rewrite !check_groups_final by exact Hne.
  apply IH.
  destruct (check_group_summary D1 G H name V st1 Hne) as [v1 [_ [_ [_ [E1 _]]]]].
  destruct (check_group_summary D2 G H name V st2 Hne) as [v2 [_ [_ [_ [E2 _]]]]].
  rewrite E1, E2, Hg. reflexivity.
Qed.

Lemma click_groups_gen (groups : list (string * options)) :
  Forall (fun g => snd g <> []) groups ->
  forall (st1 : state W1 R) (st2 : state W2 R),
    gen st1 = gen st2 ->
    gen (final (click_groups D1 G groups st1))
    = gen (final (click_groups D2 G groups st2)).
Proof.
  induction 1 as [| [name opts] rest Hne _ IH]; intros st1 st2 Hg; [exact Hg |].
  simpl in Hne. rewrite !click_groups_final by exact Hne.
  apply IH.
  destruct (click_group_summary D1 G name opts st1 Hne) as [c1 [_ [_ [_ [E1 _]]]]].
  destruct (click_group_summary D2 G name opts st2 Hne) as [c2 [_ [_ [_ [E2 _]]]]].
  rewrite E1, E2, Hg. reflexivity.
Qed.

End TwoRuns.

(** C3, as the claim states it, fails for the Radio-Matrix Filler: the same
    page and the same generator state give different checks under two
    interpreters that enumerate a set of values in different orders. *)
Lemma same_seed_different_checks :
  let st := {| world := 0; gen := 0 |} in
  let run1 := fill_radio_matrix_page (scripted matrix) counter insertion_order 5000 st in
  let run2 := fill_radio_matrix_page (scripted matrix) counter reverse_order 5000 st in
  checks (emitted run1) = [option_selector "q1" "1"; option_selector "q2" "2"] /\
  checks (emitted run2) = [option_selector "q1" "3"; option_selector "q2" "1"] /\
  checks (emitted run1) <> checks (emitted run2).
Proof.
  vm_compute. repeat split; try reflexivity. discriminate.
Qed.

(** C3, amended: take two runs on pages that present the same radios [L],
    under drivers that may otherwise answer differently, started with the
    generator in the same state.  The Label-Click Filler chooses the same
    (value, id) pairs in both runs.  The Radio-Matrix Filler chooses the same
    (name, value) pairs in both runs when, in addition, both runs enumerate
    sets in the same order.  Either filler leaves the generator in the same
    state in both runs. *)
Theorem same_seed_same_choices {W1 W2 R : Type} (D1 : Driver W1) (D2 : Driver W2)
    (G : Random R) (H : Hashing) (L : list radio) (timeout : Z)
    (st1 : state W1 R) (st2 : state W2 R) :
  presents D1 L -> presents D2 L -> gen st1 = gen st2 ->
  let m1 := fill_radio_matrix_page D1 G H timeout st1 in
  let m2 := fill_radio_matrix_page D2 G H timeout st2 in
  let l1 := fill_page_5_or_7 D1 G st1 in
  let l2 := fill_page_5_or_7 D2 G st2 in
  let values := chosen_values G H (group_values L []) (gen st1) in
  let pairs := chosen_options G (group_options L []) (gen st1) in
  lookups (emitted m1) = map (fun c => option_selector (fst c) (snd c)) values /\
  lookups (emitted m2) = map (fun c => option_selector (fst c) (snd c)) values /\
  gen (final m1) = gen (final m2) /\
  lookups (emitted l1) = map (fun c => label_selector (snd c)) pairs /\
  lookups (emitted l2) = map (fun c => label_selector (snd c)) pairs /\
  gen (final l1) = gen (final l2).
Proof.
  intros Hp1 Hp2 Hg m1 m2 l1 l2 values pairs.
  destruct (matrix_page_run D1 G H L timeout st1 Hp1) as [s1 [p1 [[Q1 _] [G1 E1]]]].
  destruct (matrix_page_run D2 G H L timeout st2 Hp2) as [s2 [p2 [[Q2 _] [G2 E2]]]].
  destruct (label_page_run D1 G L st1 Hp1) as [t1 [q1 [[R1 _] [K1 F1]]]].
  destruct (label_page_run D2 G L st2 Hp2) as [t2 [q2 [[R2 _] [K2 F2]]]].
  pose proof (group_values_nonempty L) as Hv.
  pose proof (group_options_nonempty L [] (Forall_nil _)) as Ho.
  subst m1 m2 l1 l2 values pairs.
  rewrite E1, E2, F1, F2. unfold emitted at 1 3 5 7, final at 1 3 5 7. simpl.
  rewrite !lookups_app, Q1, Q2, R1, R2. simpl.
  rewrite (proj1 (lookups_check_groups D1 G H _ Hv s1)).
  rewrite (proj1 (lookups_check_groups D2 G H _ Hv s2)).
  rewrite (proj1 (lookups_click_groups D1 G _ Ho t1)).
  rewrite (proj1 (lookups_click_groups D2 G _ Ho t2)).
  rewrite G1, G2, K1, K2, <- Hg.
  repeat split.
  - apply check_groups_gen; [exact Hv | congruence].
  - apply click_groups_gen; [exact Ho | congruence].
Qed.

Lemma same_seed_same_choices_witness :
  let st1 := {| world := 0; gen := 0 |} in
  let st2 := {| world := 7; gen := 0 |} in
  lookups (emitted (fill_radio_matrix_page (scripted two_options) counter
                      insertion_order 5000 st1))
  = lookups (emitted (fill_radio_matrix_page (scripted intercepted) counter
                        insertion_order 5000 st2)) /\
  lookups (emitted (fill_page_5_or_7 (scripted two_options) counter st1))
  = lookups (emitted (fill_page_5_or_7 (scripted intercepted) counter st2)) /\
  lookups (emitted (fill_page_5_or_7 (scripted two_options) counter st1))
  = [label_selector "a"].
Proof.
  intros st1 st2.
  destruct (same_seed_same_choices (scripted two_options) (scripted intercepted)
              counter insertion_order (radios two_options) 5000 st1 st2)
    as [A [B [_ [C [E _]]]]].
  - apply (scripted_presents two_options); reflexivity.
  - apply (scripted_presents intercepted); reflexivity.
  - reflexivity.
  - split; [rewrite A, B; reflexivity |].
    split; [rewrite C, E; reflexivity | rewrite C; reflexivity].
Defined.

(** * Further properties *)

(** ** Events of one kind *)

Section Only.

Context {W R : Type}.
Variable P : event -> Prop.

Lemma only_ret {A : Type} (a : A) (st : state W R) :
  Forall P (emitted (ret a st)).
Proof. constructor. Qed.

Lemma only_bind {A B : Type} (m : M W R A) (k : A -> M W R B) (st : state W R) :
  Forall P (emitted (m st)) ->
  (forall a s, Forall P (emitted (k a s))) ->
  Forall P (emitted (bind m k st)).
Proof.
  intros Hm Hk. rewrite bind_run.
  destruct (out (m st)) as [a | e]; unfold emitted at 1; simpl.
  - apply Forall_app. split; [exact Hm | apply Hk].
  - exact Hm.
Qed.

Lemma only_try {A : Type} (m : M W R A) (handles : exn -> bool)
    (h : exn -> M W R A) (st : state W R) :
  Forall P (emitted (m st)) ->
  (forall e s, Forall P (emitted (h e s))) ->
  Forall P (emitted (try_except m handles h st)).
Proof.
  intros Hm Hh. unfold try_except.
  destruct (m st) as [[[a | e] st1] ev1] eqn:E; unfold emitted in *; simpl in *.
  - exact Hm.
  - destruct (handles e); [| exact Hm].
    specialize (Hh e st1). destruct (h e st1) as [[o st2] ev2]. simpl in *.
    apply Forall_app. split; assumption.
Qed.

Lemma only_invoke {A : Type} (ev : event) (f : W -> outcome A * W) (st : state W R) :
  P ev -> Forall P (emitted (invoke ev f st)).
Proof.
  intro Hev. unfold invoke, emitted. destruct (f (world st)). simpl.
  constructor; [exact Hev | constructor].
Qed.

Lemma only_print (line : string) (st : state W R) :
  P (EPrint line) -> Forall P (emitted (print line st)).
Proof. intro Hev. constructor; [exact Hev | constructor]. Qed.

Lemma only_random_choice {A : Type} (G : Random R) (seq : list A) (st : state W R) :
  Forall P (emitted (random_choice G seq st)).
Proof.
  unfold random_choice, emitted. destruct seq as [| d seq']; [constructor |].
  destruct (randbelow G _ (gen st)). constructor.
Qed.

End Only.

Lemma only_filter_nil (P : event -> Prop) (keep : event -> bool) (evs : list event) :
  (forall ev, P ev -> keep ev = false) ->
  Forall P evs -> filter keep evs = [].
Proof.
  intros Hk HF. induction HF as [| ev evs Hev _ IH]; [reflexivity |].
  simpl. rewrite (Hk ev Hev). exact IH.
Qed.

(** ** What the fillers leave alone *)

Section PageEvents.

Context {W R : Type}.
Variable D : Driver W.
Variable G : Random R.
Variable H : Hashing.

Lemma page_fill_field (f : string) (v : pyvalue) (st : state W R) :
  Forall on_page (emitted (fill_field D f v st)).
Proof.
  unfold fill_field. apply only_try.
  - apply only_bind; [apply only_invoke; reflexivity |].
    intros h s. destruct (found h).
    + apply only_invoke. reflexivity.
    + apply only_bind; [apply only_invoke; reflexivity |].
      intros h' s'. destruct (found h').
      * apply only_invoke. reflexivity.
      * apply only_print. reflexivity.
  - intros e s. apply only_print. reflexivity.
Qed.

Lemma page_fill_fields (person_data : person) :
  forall st : state W R, Forall on_page (emitted (fill_fields D person_data st)).
Proof.
  induction person_data as [| [f v] rest IH]; intro st; [constructor |].
  simpl. apply only_bind; [apply page_fill_field | intros _ s; apply IH].
Qed.

Lemma page_fill_first_page (person_data : person) (st : state W R) :
  Forall on_page (emitted (fill_first_page D person_data st)).
Proof.
  unfold fill_first_page. apply only_bind; [apply page_fill_fields |].
  intros _ s. apply only_try.
  - apply only_invoke. reflexivity.
  - intros e s'. apply only_print. reflexivity.
Qed.

Lemma page_click_continue (st : state W R) :
  Forall on_page (emitted (click_continue D st)).
Proof.
  unfold click_continue. apply only_try.
  - apply only_invoke. reflexivity.
  - intros e s. apply only_print. reflexivity.
Qed.

Lemma page_pause (st : state W R) : Forall on_page (emitted (pause D st)).
Proof.
  unfold pause. apply only_try.
  - apply only_invoke. reflexivity.
  - intros e s. apply only_ret.
Qed.

Lemma page_collect_values (hs : list handle) :
  forall groups (st : state W R),
    Forall on_page (emitted (collect_values D hs groups st)).
Proof.
  induction hs as [| h hs IH]; intros groups st; [constructor |].
  simpl. apply only_bind; [apply only_invoke; reflexivity |].
  intros n s. apply only_bind; [apply only_invoke; reflexivity |].
  intros v s'. destruct (negb (attr_truthy n) || negb (attr_truthy v)); apply IH.
Qed.

Lemma page_collect_options (hs : list handle) :
  forall groups (st : state W R),
    Forall on_page (emitted (collect_options D hs groups st)).
Proof.
  induction hs as [| h hs IH]; intros groups st; [constructor |].
  simpl. apply only_bind; [apply only_invoke; reflexivity |].
  intros n s. apply only_bind; [apply only_invoke; reflexivity |].
  intros v s'. apply only_bind; [apply only_invoke; reflexivity |].
  intros i s''.
  destruct (negb (attr_truthy n) || negb (attr_truthy v) || negb (attr_truthy i));
    apply IH.
Qed.

Lemma page_check_group (name : string) (V : pyset) (st : state W R) :
  Forall on_page (emitted (check_group D G H name V st)).
Proof.
  unfold check_group. apply only_bind; [apply only_random_choice |].
  intros v s. apply only_try.
  - apply only_bind; [apply only_invoke; reflexivity |].
    intros h s'. destruct (found h).
    + apply only_invoke. reflexivity.
    + apply only_print. reflexivity.
  - intros e s'. apply only_print. reflexivity.
Qed.

Lemma page_click_group (name : string) (opts : options) (st : state W R) :
  Forall on_page (emitted (click_group D G name opts st)).
Proof.
  unfold click_group. apply only_bind; [apply only_random_choice |].
  intros c s. apply only_try.
  - apply only_bind; [apply only_invoke; reflexivity |].
    intros h s'. destruct (found h).
    + apply only_invoke. reflexivity.
    + apply only_print. reflexivity.
  - intros e s'. apply only_print. reflexivity.
Qed.

Lemma page_check_groups (groups : list (string * pyset)) :
  forall st : state W R, Forall on_page (emitted (check_groups D G H groups st)).
Proof.
  induction groups as [| [name V] rest IH]; intro st; [constructor |].
  simpl. apply only_bind; [apply page_check_group | intros _ s; apply IH].
Qed.

Lemma page_click_groups (groups : list (string * options)) :
  forall st : state W R, Forall on_page (emitted (click_groups D G groups st)).
Proof.
  induction groups as [| [name opts] rest IH]; intro st; [constructor |].
  simpl. apply only_bind; [apply page_click_group | intros _ s; apply IH].
Qed.

Lemma page_matrix_page (timeout : Z) (st : state W R) :
  Forall on_page (emitted (fill_radio_matrix_page D G H timeout st)).
Proof.
  unfold fill_radio_matrix_page. apply only_bind.
  - apply only_try.
    + apply only_bind; [apply only_invoke; reflexivity | intros; apply only_ret].
    + intros; apply only_ret.
  - intros [|] s; [| apply only_ret].
    apply only_bind; [apply only_invoke; reflexivity |].
    intros hs s'. apply only_bind; [apply page_collect_values |].
    intros groups s''. apply page_check_groups.
Qed.

Lemma page_label_page (st : state W R) :
  Forall on_page (emitted (fill_page_5_or_7 D G st)).
Proof.
  unfold fill_page_5_or_7. apply only_bind.
  - apply only_try.
    + apply only_bind; [apply only_invoke; reflexivity | intros; apply only_ret].
    + intros; apply only_ret.
  - intros [|] s; [| apply only_ret].
    apply only_bind; [apply only_invoke; reflexivity |].
    intros hs s'. apply only_bind; [apply page_collect_options |].
    intros groups s''. apply page_click_groups.
Qed.

Lemma page_walk_pages (st : state W R) :
  Forall on_page (emitted (walk_pages D G H st)).
Proof.
  unfold walk_pages.
  repeat (apply only_bind;
          [first [apply page_matrix_page | apply page_label_page
                 | apply page_click_continue | apply page_pause] | intros _ ?]).
  apply page_click_continue.
Qed.

End PageEvents.

(** X1: whatever the driver answers, the Page-1 Filler, the Radio-Matrix
    Filler, the Label-Click Filler and the Continue action emit page events
    only: they never navigate, never launch or close the browser, never
    prompt, and every line they print carries the warning or the error
    tag. *)
Theorem fillers_stay_on_the_page {W R : Type} (D : Driver W) (G : Random R)
    (H : Hashing) (person_data : person) (timeout : Z) (st : state W R) :
  Forall on_page (emitted (fill_first_page D person_data st)) /\
  Forall on_page
    (emitted (fill_radio_matrix_page D G H timeout st)) /\
  Forall on_page (emitted (click_continue D st)) /\
  Forall on_page (emitted (fill_page_5_or_7 D G st)).
Proof.
  repeat split.
  - apply page_fill_first_page.
  - apply page_matrix_page.
  - apply page_click_continue.
  - apply page_label_page.
Qed.

(** ** The fields of page 1 *)

Lemma warnings_app (a b : list event) :
  warnings (a ++ b) = (warnings a ++ warnings b)%list.
Proof. unfold warnings. rewrite console_app. apply filter_app. Qed.

(** One field on a page whose lookups answer by [shows]. *)
Lemma fill_field_routed {W R : Type} (D : Driver W) (shows : string -> bool)
    (f : string) (v : pyvalue) (st : state W R) :
  (forall sel w, exists o,
     fst (d_query_selector D sel w) = Ret o /\ found o = shows sel) ->
  let evs := emitted (fill_field D f v st) in
  fills evs = (if shows (selector_input f) then [(selector_input f, py_str v)] else []) /\
  selects evs
    = (if negb (shows (selector_input f)) && shows (selector_select f)
       then [(selector_select f, py_str v)] else []) /\
  warnings evs
    = (if negb (shows (selector_input f)) && negb (shows (selector_select f))
       then [warn_no_control f] else []).
Proof.
  intros Hq evs. subst evs.
  unfold fill_field, try_except, bind, query_selector, fill, select_option,
    invoke, print, emitted, any_exception.
  destruct (Hq (selector_input f) (world st)) as [o [Ho Hf]].
  destruct (d_query_selector D (selector_input f) (world st)) as [oq wq].
  simpl in Ho. subst oq. simpl. rewrite <- Hf.
  destruct (found o); simpl.
  - destruct (d_fill D _ _ wq) as [[[] | e] wf]; repeat split; reflexivity.
  - destruct (Hq (selector_select f) wq) as [o' [Ho' Hf']].
    destruct (d_query_selector D (selector_select f) wq) as [oq' wq'].
    simpl in Ho'. subst oq'. simpl. rewrite <- Hf'.
    destruct (found o'); simpl.
    + destruct (d_select_option D _ _ wq') as [[[] | e] wo]; repeat split; reflexivity.
    + repeat split; reflexivity.
Qed.

(** The Page-1 Filler is the loop over the fields and then the click. *)
Lemma fill_first_page_events {W R : Type} (D : Driver W) (person_data : person)
    (st : state W R) :
  exists tail,
    emitted (fill_first_page D person_data st)
      = (emitted (fill_fields D person_data st)
         ++ EClick submit_selector 5000 :: tail)%list /\
    (tail = [] \/ tail = [EPrint err_submit_page1]) /\
    (out (fill_first_page D person_data st) = Ret tt \/
     exists msg, out (fill_first_page D person_data st) = Raise (PyException msg)).
Proof.
  unfold fill_first_page. rewrite bind_run, fill_fields_returns.
  unfold emitted at 1, out at 1 2. simpl.
  unfold try_except, click, invoke, print, emitted at 2.
  destruct (d_click D submit_selector 5000 _) as [[[] | [m | m]] w]; simpl.
  - exists []. repeat split; left; reflexivity.
  - exists [EPrint err_submit_page1].
    split; [reflexivity |]. split; [right | left]; reflexivity.
  - exists []. split; [reflexivity |]. split; [left; reflexivity |].
    right. exists m. reflexivity.
Qed.

(** X2: on a page whose lookups never raise and find exactly the selectors
    that [shows] accepts, the Page-1 Filler fills the fields that have a
    text input, selects an option for the fields that have no text input
    but a select, and prints one warning for each field that has neither;
    each list follows the order of the record, and a field with both
    controls is filled, not selected. *)
Theorem fields_are_routed {W R : Type} (D : Driver W) (shows : string -> bool)
    (person_data : person) (st : state W R) :
  (forall sel w, exists o,
     fst (d_query_selector D sel w) = Ret o /\ found o = shows sel) ->
  let evs := emitted (fill_first_page D person_data st) in
  fills evs
    = map (fun item => (selector_input (fst item), py_str (snd item)))
        (filter (fun item => shows (selector_input (fst item))) person_data) /\
  selects evs
    = map (fun item => (selector_select (fst item), py_str (snd item)))
        (filter (fun item => negb (shows (selector_input (fst item)))
                             && shows (selector_select (fst item))) person_data) /\
  warnings evs
    = map (fun item => warn_no_control (fst item))
        (filter (fun item => negb (shows (selector_input (fst item)))
                             && negb (shows (selector_select (fst item)))) person_data).
Proof.
  intros Hq evs.
  assert (Hfields : forall (items : person) (s : state W R),
            fills (emitted (fill_fields D items s))
              = map (fun item => (selector_input (fst item), py_str (snd item)))
                  (filter (fun item => shows (selector_input (fst item))) items) /\
            selects (emitted (fill_fields D items s))
              = map (fun item => (selector_select (fst item), py_str (snd item)))
                  (filter (fun item => negb (shows (selector_input (fst item)))
                                       && shows (selector_select (fst item))) items) /\
            warnings (emitted (fill_fields D items s))
              = map (fun item => warn_no_control (fst item))
                  (filter (fun item => negb (shows (selector_input (fst item)))
                                       && negb (shows (selector_select (fst item))))
                     items)).
  { induction items as [| [f v] rest IH]; intro s; [repeat split; reflexivity |].
    rewrite fill_fields_cons, fills_app, selects_app, warnings_app.
    destruct (fill_field_routed D shows f v s Hq) as [Hf [Hs Hw]].
    destruct (IH (final (fill_field D f v s))) as [IHf [IHs IHw]].
    rewrite Hf, Hs, Hw, IHf, IHs, IHw. simpl.
    destruct (shows (selector_input f)), (shows (selector_select f));
      repeat split; reflexivity. }
  destruct (Hfields person_data st) as [Hf [Hs Hw]].
  destruct (fill_first_page_events D person_data st) as [tail [Hev [Htail _]]].
  subst evs. rewrite Hev, fills_app, selects_app, warnings_app, Hf, Hs, Hw.
  destruct Htail; subst tail; simpl; rewrite !app_nil_r; repeat split; reflexivity.
Qed.

Lemma fields_are_routed_witness :
  let evs := emitted (fill_first_page (scripted mixed_controls)
                        [("element_9", PyInt 7); ("element_3", PyStr "B");
                         ("element_2", PyStr "Ali")]
                        {| world := 0; gen := 0 |}) in
  fills evs = [(selector_input "element_2", "Ali")] /\
  selects evs = [(selector_select "element_3", "B")] /\
  warnings evs = [warn_no_control "element_9"].
Proof.
  apply (fields_are_routed (scripted mixed_controls) (shows mixed_controls)).
  intros sel w. exists (if shows mixed_controls sel then Some 0 else None).
  split; [reflexivity |]. destruct (shows mixed_controls sel); reflexivity.
Defined.




(** ** Leaving the loop over the people *)

(** The loop ends with the first turn that does not fall through. *)
Lemma people_loop_stops {W R : Type} (D : Driver W) (G : Random R) (H : Hashing)
    (done rest : list person) (person_data : person) (idx : nat)
    (opened st s : state W R) (ev0 evp : list event) (o : outcome loop_exit) :
  people_loop D G H idx done opened = (Ret NextPerson, st, ev0) ->
  process_person D G H (idx + List.length done) person_data st = (o, s, evp) ->
  o <> Ret NextPerson ->
  people_loop D G H idx (done ++ person_data :: rest) opened
  = (match o with Ret _ => Ret Returned | Raise e => Raise e end, s,
     (ev0 ++ evp)%list).
Proof.
  intros Hdone Hp Ho.
  rewrite (people_loop_app D G H done (person_data :: rest) idx opened st ev0 Hdone).
  simpl people_loop. rewrite bind_run, Hp. unfold out, final, emitted, ret. simpl.
  destruct o as [[|] | e]; [contradiction | | reflexivity].
  simpl. rewrite app_nil_r. reflexivity.
Qed.

(** What [main] makes of a loop that was left early. *)
Lemma main_after_early_exit {W R : Type} (D : Driver W) (G : Random R) (H : Hashing)
    (people : list person) (start opened s : state W R) (evs : list event)
    (o : outcome loop_exit) :
  bind (launch D PLAYWRIGHT_HEADLESS) (fun _ => new_page D) start
    = (Ret tt, opened, [ELaunch PLAYWRIGHT_HEADLESS; ENewPage]) ->
  people_loop D G H 1 people opened = (o, s, evs) ->
  o <> Ret NextPerson ->
  main D G H (Present (Ret people)) start
  = (match o with Ret _ => Ret tt | Raise e => Raise e end, s,
     ([EStart; ELaunch PLAYWRIGHT_HEADLESS; ENewPage] ++ evs ++ [EStop])%list).
Proof.
  intros Hopen Hloop Ho.
  unfold main, with_sync_playwright.
  rewrite (bind_ret _ _ start start people []) by reflexivity.
  unfold out, final, emitted. simpl.
  rewrite <- (bind_assoc (launch D PLAYWRIGHT_HEADLESS) (fun _ => new_page D)).
  rewrite (bind_ret _ _ _ _ _ _ Hopen).
  destruct o as [[|] | e]; [contradiction | |].
  - rewrite (bind_ret _ _ _ _ _ _ Hloop). unfold out, final, emitted, ret. simpl.
    rewrite app_nil_r. reflexivity.
  - rewrite (bind_raise _ _ _ _ _ _ Hloop). unfold out, final, emitted. simpl.
    reflexivity.
Qed.

(** X4: let the browser be open and the records before [person_data] have
    been walked to their end.  When the navigation to page 1 times out for
    [person_data], [main] prints the load error, closes the browser and
    stops: no wait, no fill and no later record follows, and [main] ends as
    the close call ends. *)
Theorem navigation_timeout_is_fatal {W R : Type} (D : Driver W) (G : Random R)
    (H : Hashing) (done rest : list person) (person_data : person)
    (start opened st : state W R) (ev0 : list event) (msg : string) :
  bind (launch D PLAYWRIGHT_HEADLESS) (fun _ => new_page D) start
    = (Ret tt, opened, [ELaunch PLAYWRIGHT_HEADLESS; ENewPage]) ->
  people_loop D G H 1 done opened = (Ret NextPerson, st, ev0) ->
  fst (d_goto D SITE_URL 30000 (world st)) = Raise (PlaywrightTimeoutError msg) ->
  let run := main D G H (Present (Ret (done ++ person_data :: rest))%list) start in
  let closing := d_close D (snd (d_goto D SITE_URL 30000 (world st))) in
  emitted run
    = ([EStart; ELaunch PLAYWRIGHT_HEADLESS; ENewPage] ++ ev0
       ++ [EPrint (banner (S (List.length done)));
           EGoto SITE_URL 30000;
           EPrint err_load;
           EClose;
           EStop])%list /\
  out run = fst closing /\
  world (final run) = snd closing.
Proof.
  intros Hopen Hdone Hgoto run closing.
  assert (Hp : process_person D G H (1 + List.length done) person_data st
               = (match fst closing with Ret _ => Ret Returned | Raise e => Raise e end,
                  {| world := snd closing; gen := gen st |},
                  [EPrint (banner (S (List.length done))); EGoto SITE_URL 30000;
                   EPrint err_load; EClose])).
  { subst closing.
    unfold process_person, bind, try_except, goto, browser_close, invoke, print,
      ret. simpl.
    destruct (d_goto D SITE_URL 30000 (world st)) as [og wg].
    simpl in Hgoto. subst og. simpl.
    destruct (d_close D wg) as [[[] | e] wc]; reflexivity. }
  assert (Hne : match fst closing with
                | Ret _ => Ret Returned | Raise e => Raise e end
                <> Ret NextPerson)
    by (destruct (fst closing); discriminate).
  pose proof (people_loop_stops D G H done rest person_data 1 opened st _ ev0 _ _
                Hdone Hp Hne) as Hloop.
  assert (Hne' : match (match fst closing with
                        | Ret _ => Ret Returned | Raise e => Raise e end)
                 with Ret _ => Ret Returned | Raise e => @Raise loop_exit e end
                 <> Ret NextPerson)
    by (destruct (fst closing); discriminate).
  subst run.
  rewrite (main_after_early_exit D G H _ start opened _ _ _ Hopen Hloop Hne').
  unfold emitted, out, final. simpl.
  rewrite <- !app_assoc. simpl.
  destruct (fst closing) as [[] | e]; repeat split; reflexivity.
Qed.

Lemma navigation_timeout_is_fatal_witness :
  let D := scripted (unreachable_form 26 (PlaywrightTimeoutError "Timeout 30000ms exceeded.")) in
  let start := {| world := 0; gen := 0 |} in
  let opened := {| world := 2; gen := 0 |} in
  let run := main D counter insertion_order
               (Present (Ret [[]; [("element_2", PyStr "Ali")]; []])) start in
  emitted run
    = ([EStart; ELaunch PLAYWRIGHT_HEADLESS; ENewPage]
       ++ emitted (people_loop D counter insertion_order 1 [[]] opened)
       ++ [EPrint (banner 2);
           EGoto SITE_URL 30000;
           EPrint err_load;
           EClose;
           EStop])%list /\
  out run = Ret tt /\
  world (final run) = 28.
Proof.
  intros D start opened run.
  apply (navigation_timeout_is_fatal D counter insertion_order
           [[]] [[]] [("element_2", PyStr "Ali")] start opened
           (final (people_loop D counter insertion_order 1 [[]] opened))
           (emitted (people_loop D counter insertion_order 1 [[]] opened))
           "Timeout 30000ms exceeded.").
  - reflexivity.
  - vm_compute. reflexivity.
  - vm_compute. reflexivity.
Defined.

(** X5: the two waits that open a record catch the timeout only.  With the
    browser open and the earlier records walked to their end, an exception
    other than the timeout raised by the navigation to page 1, or by the
    wait for its container after a navigation that succeeded, leaves [main]
    uncaught: nothing is printed about it, the script does not close the
    browser, and no later record is started. *)
Theorem navigation_error_is_uncaught {W R : Type} (D : Driver W) (G : Random R)
    (H : Hashing) (done rest : list person) (person_data : person)
    (start opened st : state W R) (ev0 : list event) (msg : string) :
  bind (launch D PLAYWRIGHT_HEADLESS) (fun _ => new_page D) start
    = (Ret tt, opened, [ELaunch PLAYWRIGHT_HEADLESS; ENewPage]) ->
  people_loop D G H 1 done opened = (Ret NextPerson, st, ev0) ->
  let run := main D G H (Present (Ret (done ++ person_data :: rest))%list) start in
  (fst (d_goto D SITE_URL 30000 (world st)) = Raise (PyException msg) ->
   out run = Raise (PyException msg) /\
   emitted run
     = ([EStart; ELaunch PLAYWRIGHT_HEADLESS; ENewPage] ++ ev0
        ++ [EPrint (banner (S (List.length done))); EGoto SITE_URL 30000;
            EStop])%list) /\
  (fst (d_goto D SITE_URL 30000 (world st)) = Ret tt ->
   fst (d_wait_for_selector D container_selector 10000
          (snd (d_goto D SITE_URL 30000 (world st)))) = Raise (PyException msg) ->
   out run = Raise (PyException msg) /\
   emitted run
     = ([EStart; ELaunch PLAYWRIGHT_HEADLESS; ENewPage] ++ ev0
        ++ [EPrint (banner (S (List.length done))); EGoto SITE_URL 30000;
            EWaitForSelector container_selector 10000; EStop])%list).
Proof.
  intros Hopen Hdone run. split.
  - intro Hgoto.
    assert (Hp : process_person D G H (1 + List.length done) person_data st
                 = (Raise (PyException msg),
                    {| world := snd (d_goto D SITE_URL 30000 (world st)); gen := gen st |},
                    [EPrint (banner (S (List.length done))); EGoto SITE_URL 30000])).
    { unfold process_person, bind, try_except, goto, invoke, print, ret. simpl.
      destruct (d_goto D SITE_URL 30000 (world st)) as [og wg].
      simpl in Hgoto. subst og. reflexivity. }
    pose proof (people_loop_stops D G H done rest person_data 1 opened st _ ev0 _ _
                  Hdone Hp ltac:(discriminate)) as Hloop.
    subst run.
    rewrite (main_after_early_exit D G H _ start opened _ _ _ Hopen Hloop
               ltac:(discriminate)).
    unfold emitted, out. simpl. rewrite <- !app_assoc. split; reflexivity.
  - intros Hgoto Hwait.
    assert (Hp : process_person D G H (1 + List.length done) person_data st
                 = (Raise (PyException msg),
                    {| world := snd (d_wait_for_selector D container_selector 10000
                                       (snd (d_goto D SITE_URL 30000 (world st))));
                       gen := gen st |},
                    [EPrint (banner (S (List.length done))); EGoto SITE_URL 30000;
                     EWaitForSelector container_selector 10000])).
    { unfold process_person, bind, try_except, goto, wait_for_selector, invoke,
        print, ret. simpl.
      destruct (d_goto D SITE_URL 30000 (world st)) as [og wg].
      simpl in Hgoto, Hwait. subst og. simpl.
      destruct (d_wait_for_selector D container_selector 10000 wg) as [ow ww].
      simpl in Hwait. subst ow. reflexivity. }
    pose proof (people_loop_stops D G H done rest person_data 1 opened st _ ev0 _ _
                  Hdone Hp ltac:(discriminate)) as Hloop.
    subst run.
    rewrite (main_after_early_exit D G H _ start opened _ _ _ Hopen Hloop
               ltac:(discriminate)).
    unfold emitted, out. simpl. rewrite <- !app_assoc. split; reflexivity.
Qed.

Lemma navigation_error_is_uncaught_witness :
  let failure := PyException "net::ERR_NAME_NOT_RESOLVED" in
  let start := {| world := 0; gen := 0 |} in
  out (main (scripted (unreachable_form 0 failure)) counter insertion_order
         (Present (Ret [[]; []])) start) = Raise failure /\
  emitted (main (scripted (unreachable_form 0 failure)) counter insertion_order
             (Present (Ret [[]; []])) start)
    = [EStart; ELaunch PLAYWRIGHT_HEADLESS; ENewPage; EPrint (banner 1);
       EGoto SITE_URL 30000; EStop] /\
  out (main (scripted (broken_form failure)) counter insertion_order
         (Present (Ret [[]; []])) start) = Raise failure /\
  emitted (main (scripted (broken_form failure)) counter insertion_order
             (Present (Ret [[]; []])) start)
    = [EStart; ELaunch PLAYWRIGHT_HEADLESS; ENewPage; EPrint (banner 1);
       EGoto SITE_URL 30000; EWaitForSelector container_selector 10000; EStop].
Proof.
  intros failure start.
  destruct (navigation_error_is_uncaught (scripted (unreachable_form 0 failure))
              counter insertion_order [] [[]] [] start {| world := 2; gen := 0 |}
              {| world := 2; gen := 0 |} [] "net::ERR_NAME_NOT_RESOLVED"
              eq_refl eq_refl) as [[A1 A2] _]; [reflexivity |].
  destruct (navigation_error_is_uncaught (scripted (broken_form failure))
              counter insertion_order [] [[]] [] start {| world := 2; gen := 0 |}
              {| world := 2; gen := 0 |} [] "net::ERR_NAME_NOT_RESOLVED"
              eq_refl eq_refl) as [_ [B1 B2]]; [reflexivity | reflexivity |].
  repeat split; assumption.
Defined.

(** ** A filler that raises *)


Section Raising.

Context {W R : Type}.
Variable D : Driver W.
Variable G : Random R.
Variable H : Hashing.








End Raising.




(** ** Lookups and actions *)

Section Guarded.

Context {W R : Type}.
Variable D : Driver W.
Variable G : Random R.
Variable H : Hashing.

Lemma check_groups_guarded (groups : list (string * pyset)) :
  Forall (fun g => snd g <> []) groups ->
  forall st : state W R,
    let evs := emitted (check_groups D G H groups st) in
    List.length (lookups evs) = List.length groups /\
    List.length (checks evs) <= List.length groups /\
    incl (checks evs) (lookups evs) /\
    clicks evs = [].
Proof.
  induction 1 as [| [name V] rest Hne _ IH]; intro st.
  - repeat split; [apply Nat.le_refl | apply incl_refl].
  - simpl in Hne. intro evs. subst evs.
    rewrite (check_groups_cons D G H name V rest st Hne).
    rewrite lookups_app, checks_app, clicks_app, !length_app.
    destruct (check_group_summary D G H name V st Hne)
      as [v [_ [_ [_ [_ [Hl [Hk Hc]]]]]]].
    destruct (IH (final (check_group D G H name V st))) as [I1 [I2 [I3 I4]]].
    rewrite Hl, Hk, Hc, I1, I4. simpl.
    destruct (fst (d_query_selector D (option_selector name v) (world st)))
      as [[h |] | e]; simpl; repeat split; try lia.
    + apply incl_cons; [left; reflexivity | apply incl_tl; exact I3].
    + apply incl_tl. exact I3.
    + apply incl_tl. exact I3.
Qed.

Lemma click_groups_guarded (groups : list (string * options)) :
  Forall (fun g => snd g <> []) groups ->
  forall st : state W R,
    let evs := emitted (click_groups D G groups st) in
    List.length (lookups evs) = List.length groups /\
    List.length (clicks evs) <= List.length groups /\
    incl (clicks evs) (lookups evs) /\
    checks evs = [].
Proof.
  induction 1 as [| [name opts] rest Hne _ IH]; intro st.
  - repeat split; [apply Nat.le_refl | apply incl_refl].
  - simpl in Hne. intro evs. subst evs.
    rewrite (click_groups_cons D G name opts rest st Hne).
    rewrite lookups_app, checks_app, clicks_app, !length_app.
    destruct (click_group_summary D G name opts st Hne)
      as [c [_ [_ [_ [_ [Hl [Hk Hc]]]]]]].
    destruct (IH (final (click_group D G name opts st))) as [I1 [I2 [I3 I4]]].
    rewrite Hl, Hk, Hc, I1, I4. simpl.
    destruct (fst (d_query_selector D (label_selector (snd c)) (world st)))
      as [[h |] | e]; simpl; repeat split; try lia.
    + apply incl_cons; [left; reflexivity | apply incl_tl; exact I3].
    + apply incl_tl. exact I3.
    + apply incl_tl. exact I3.
Qed.

End Guarded.

(** X7: on a page that presents the radios [L], whatever the lookups and
    the actions answer, the Radio-Matrix Filler looks up exactly one option
    per group, checks at most one control per group and only selectors it
    has looked up, and never clicks; the Label-Click Filler looks up exactly
    one label per group, clicks at most one per group and only labels it has
    looked up, and never checks. *)
Theorem actions_follow_lookups {W R : Type} (D : Driver W) (G : Random R)
    (H : Hashing) (L : list radio) (timeout : Z) (st : state W R) :
  presents D L ->
  let m := emitted (fill_radio_matrix_page D G H timeout st) in
  let l := emitted (fill_page_5_or_7 D G st) in
  (List.length (lookups m) = List.length (group_values L []) /\
   List.length (checks m) <= List.length (group_values L []) /\
   incl (checks m) (lookups m) /\
   clicks m = []) /\
  (List.length (lookups l) = List.length (group_options L []) /\
   List.length (clicks l) <= List.length (group_options L []) /\
   incl (clicks l) (lookups l) /\
   checks l = []).
Proof.
  intros Hp m l. subst m l.
  destruct (matrix_page_run D G H L timeout st Hp) as [s1 [p1 [[Q1 [Q2 [Q3 _]]] [_ E1]]]].
  destruct (label_page_run D G L st Hp) as [s2 [p2 [[R1 [R2 [R3 _]]] [_ E2]]]].
  rewrite E1, E2. unfold emitted at 1 2 3 4 5 6 11 12 13 14 15 16. simpl.
  rewrite !lookups_app, !checks_app, !clicks_app, Q1, Q2, Q3, R1, R2, R3. simpl.
  split.
  - apply (check_groups_guarded D G H _ (group_values_nonempty L) s1).
  - apply (click_groups_guarded D G _ (group_options_nonempty L [] (Forall_nil _)) s2).
Qed.

Lemma actions_follow_lookups_witness :
  let st := {| world := 0; gen := 1 |} in
  let m := emitted (fill_radio_matrix_page (scripted flaky_matrix) counter
                      insertion_order 5000 st) in
  List.length (lookups m) = 2 /\
  List.length (checks m) <= 2 /\
  incl (checks m) (lookups m) /\
  clicks m = [].
Proof.
  intros st m.
  destruct (actions_follow_lookups (scripted flaky_matrix) counter insertion_order
              (radios flaky_matrix) 5000 st) as [A _].
  - apply scripted_presents; reflexivity.
  - exact A.
Defined.

(** ** The order of groups and values *)









(** ** Closing the browser *)

Lemma closed_never_app (a b : list event) :
  closed_never a -> closed_never b -> closed_never (a ++ b).
Proof.
  unfold closed_never. intros Ha Hb Hin. apply in_app_or in Hin. tauto.
Qed.

Lemma closed_last_app (a b : list event) :
  closed_never a -> closed_last b -> closed_last (a ++ b).
Proof.
  intros Ha [pre [E Hpre]]. exists (a ++ pre)%list. split.
  - rewrite E, app_assoc. reflexivity.
  - apply closed_never_app; assumption.
Qed.

Lemma on_page_closed_never (evs : list event) :
  Forall on_page evs -> closed_never evs.
Proof.
  intros HF Hin. rewrite Forall_forall in HF. specialize (HF _ Hin). discriminate.
Qed.

Section Closing.

Context {W R : Type}.
Variable D : Driver W.
Variable G : Random R.
Variable H : Hashing.

(** The part of a turn that follows the two waits of page 1. *)
Lemma turn_tail_closed_never (idx : nat) (person_data : person) (st : state W R) :
  let tail :=
    bind (fill_first_page D person_data) (fun _ =>
    bind (pause D) (fun _ =>
    bind (walk_pages D G H) (fun _ =>
    bind (print (done_line idx)) (fun _ => ret NextPerson)))) in
  closed_never (emitted (tail st)) /\ out (tail st) <> Ret Returned.
Proof.
  intro tail. subst tail. split.
  - assert (HP : Forall (fun ev => ev <> EClose)
                   (emitted (bind (fill_first_page D person_data) (fun _ =>
                             bind (pause D) (fun _ =>
                             bind (walk_pages D G H) (fun _ =>
                             bind (print (done_line idx))
                               (fun _ => ret NextPerson)))) st))).
    { assert (Hw : forall evs, Forall on_page evs -> Forall (fun ev => ev <> EClose) evs).
      { intros evs HF. eapply Forall_impl; [| exact HF].
        intros ev Hev E. subst ev. discriminate. }
      apply only_bind; [apply Hw, page_fill_first_page |]. intros _ s1.
      apply only_bind; [apply Hw, page_pause |]. intros _ s2.
      apply only_bind; [apply Hw, page_walk_pages |]. intros _ s3.
      apply only_bind; [apply only_print; discriminate |]. intros _ s4.
      apply only_ret. }
    intro Hin. rewrite Forall_forall in HP. exact (HP _ Hin eq_refl).
  - intro Hout.
    apply bind_normal in Hout. destruct Hout as [_ [_ [Hout _]]].
    apply bind_normal in Hout. destruct Hout as [_ [_ [Hout _]]].
    apply bind_normal in Hout. destruct Hout as [_ [_ [Hout _]]].
    apply bind_normal in Hout. destruct Hout as [_ [_ [Hout _]]].
    discriminate.
Qed.

(** A turn either never closes the browser, and then it does not execute
    [return], or closes it with its last event, and then it does not fall
    through to the next record. *)
Lemma process_person_closing (idx : nat) (person_data : person) (st : state W R) :
  let r := process_person D G H idx person_data st in
  (closed_never (emitted r) /\ out r <> Ret Returned) \/
  (closed_last (emitted r) /\ out r <> Ret NextPerson).
Proof.
  intro r. subst r.
  destruct (d_goto D SITE_URL 30000 (world st)) as [[[] | [m | m]] w1] eqn:Eg.
  - destruct (d_wait_for_selector D container_selector 10000 w1)
      as [[[] | [m | m]] w2] eqn:Ew.
    + left.
      assert (Hg : try_except (bind (goto D SITE_URL 30000) (fun _ => ret true)) is_timeout
                     (fun _ => bind (print "[ERROR] Could not load page 1. Check SITE_URL.")
                                 (fun _ => bind (browser_close D) (fun _ => ret false))) st
                   = (Ret true, {| world := w1; gen := gen st |}, [EGoto SITE_URL 30000])).
      { unfold try_except, bind, goto, invoke, ret. rewrite Eg. reflexivity. }
      assert (Hc : try_except (bind (wait_for_selector D container_selector 10000)
                                 (fun _ => ret true)) is_timeout
                     (fun _ => bind (print "[ERROR] '#form_container' not found on page 1.")
                                 (fun _ => bind (browser_close D) (fun _ => ret false)))
                     {| world := w1; gen := gen st |}
                   = (Ret true, {| world := w2; gen := gen st |},
                      [EWaitForSelector container_selector 10000])).
      { unfold try_except, bind, wait_for_selector, invoke, ret. simpl.
        rewrite Ew. reflexivity. }
      unfold process_person.
      rewrite (bind_ret _ _ st st tt [EPrint (banner idx)]) by reflexivity.
      rewrite (bind_ret _ _ _ _ _ _ Hg). cbn beta iota delta [negb].
      rewrite (bind_ret _ _ _ _ _ _ Hc). cbn beta iota delta [negb].
      destruct (turn_tail_closed_never idx person_data {| world := w2; gen := gen st |})
        as [Hn Ho].
      unfold out at 1 2 4, emitted at 1 2 4, final. simpl. split; [| exact Ho].
      intros [E | [E | [E | Hin]]]; try discriminate. exact (Hn Hin).
    + right.
      unfold process_person, bind, try_except, goto, wait_for_selector,
        browser_close, invoke, print, ret, out, emitted. simpl.
      rewrite Eg. simpl. rewrite Ew. simpl.
      destruct (d_close D w2) as [[[] | e] w3]; simpl;
        (split; [| discriminate]);
        exists [EPrint (banner idx); EGoto SITE_URL 30000;
                EWaitForSelector container_selector 10000;
                EPrint "[ERROR] '#form_container' not found on page 1."];
        (split; [reflexivity |]);
        intros [E | [E | [E | [E | []]]]]; discriminate.
    + left.
      unfold process_person, bind, try_except, goto, wait_for_selector,
        invoke, print, ret, out, emitted, closed_never. simpl.
      rewrite Eg. simpl. rewrite Ew. simpl.
      split; [| discriminate].
      intros [E | [E | [E | []]]]; discriminate.
  - right.
    unfold process_person, bind, try_except, goto, browser_close, invoke, print,
      ret, out, emitted. simpl.
    rewrite Eg. simpl.
    destruct (d_close D w1) as [[[] | e] w3]; simpl;
      (split; [| discriminate]);
      exists [EPrint (banner idx); EGoto SITE_URL 30000;
              EPrint "[ERROR] Could not load page 1. Check SITE_URL."];
      (split; [reflexivity |]);
      intros [E | [E | [E | []]]]; discriminate.
  - left.
    unfold process_person, bind, try_except, goto, invoke, print, ret, out,
      emitted, closed_never. simpl.
    rewrite Eg. simpl. split; [| discriminate].
    intros [E | [E | []]]; discriminate.
Qed.

Lemma people_loop_closing (people : list person) :
  forall (idx : nat) (st : state W R),
    let r := people_loop D G H idx people st in
    (closed_never (emitted r) /\ out r <> Ret Returned) \/
    (closed_last (emitted r) /\ out r <> Ret NextPerson).
Proof.
  induction people as [| p rest IH]; intros idx st r; subst r.
  - left. split; [intros [] | discriminate].
  - simpl people_loop. rewrite bind_run.
    destruct (process_person_closing idx p st) as [[Hn Ho] | [Hl Ho]].
    + destruct (out (process_person D G H idx p st)) as [[|] | e] eqn:E.
      * unfold out at 1 3, emitted at 1 3. simpl.
        destruct (IH (S idx) (final (process_person D G H idx p st)))
          as [[In' Io] | [Il Io]].
        -- left. split; [apply closed_never_app; assumption | exact Io].
        -- right. split; [apply closed_last_app; assumption | exact Io].
      * contradiction.
      * left. unfold out, emitted. simpl. split; [exact Hn | discriminate].
    + destruct (out (process_person D G H idx p st)) as [[|] | e] eqn:E.
      * contradiction.
      * right. unfold out, emitted, ret. simpl. rewrite app_nil_r.
        split; [exact Hl | discriminate].
      * right. unfold out, emitted. simpl. split; [exact Hl | discriminate].
Qed.

End Closing.

Lemma closing_step {W R A : Type} (m : M W R A) (k : A -> M W R unit)
    (st : state W R) :
  closed_never (emitted (m st)) ->
  (forall a s, (closed_never (emitted (k a s)) /\ out (k a s) <> Ret tt) \/
               closed_last (emitted (k a s))) ->
  (closed_never (emitted (bind m k st)) /\ out (bind m k st) <> Ret tt) \/
  closed_last (emitted (bind m k st)).
Proof.
  intros Hm Hk. rewrite bind_run.
  destruct (out (m st)) as [a | e]; unfold out at 1, emitted at 1 2; cbn [fst snd].
  - destruct (Hk a (final (m st))) as [[Hn Ho] | Hl].
    + left. split; [apply closed_never_app; assumption | exact Ho].
    + right. apply closed_last_app; assumption.
  - left. split; [exact Hm | discriminate].
Qed.

Lemma closed_never_invoke {W R A : Type} (ev : event) (f : W -> outcome A * W)
    (st : state W R) :
  ev <> EClose -> closed_never (emitted (invoke ev f st)).
Proof.
  intro Hev. rewrite emitted_invoke. intros [E | []]. exact (Hev E).
Qed.

Lemma main_body_closing {W R : Type} (D : Driver W) (G : Random R) (H : Hashing)
    (people : list person) (st : state W R) :
  let body :=
    bind (launch D PLAYWRIGHT_HEADLESS) (fun _ =>
    bind (new_page D) (fun _ =>
    bind (people_loop D G H 1 people) (fun exit =>
      match exit with
      | Returned => ret tt
      | NextPerson =>
          bind (input D "All done. Press Enter to close the browser...") (fun _ =>
          bind (print "Closing browser...") (fun _ => browser_close D))
      end))) in
  (closed_never (emitted (body st)) /\ out (body st) <> Ret tt) \/
  closed_last (emitted (body st)).
Proof.
  intro body. subst body.
  apply closing_step; [apply closed_never_invoke; discriminate |]. intros _ s0.
  apply closing_step; [apply closed_never_invoke; discriminate |]. intros _ s.
  rewrite bind_run.
  destruct (people_loop_closing D G H people 1 s) as [[Hn Ho] | [Hl Ho]];
    destruct (out (people_loop D G H 1 people s)) as [[|] | e] eqn:E;
    set (loop_events := emitted (people_loop D G H 1 people s)) in *;
    set (after := final (people_loop D G H 1 people s)) in *;
    try contradiction.
  - (* the loop fell through: prompt, line, close *)
    unfold out at 1, emitted at 1 2. cbn [fst snd].
    assert (Hk : (closed_never
                    (emitted (bind (input D "All done. Press Enter to close the browser...")
                                (fun _ => bind (print "Closing browser...")
                                            (fun _ => browser_close D)) after)) /\
                  out (bind (input D "All done. Press Enter to close the browser...")
                         (fun _ => bind (print "Closing browser...")
                                     (fun _ => browser_close D)) after) <> Ret tt) \/
                 closed_last
                   (emitted (bind (input D "All done. Press Enter to close the browser...")
                               (fun _ => bind (print "Closing browser...")
                                           (fun _ => browser_close D)) after))).
    { unfold bind, input, browser_close, invoke, print, out, emitted.
      destruct (d_input D _ (world after)) as [[[] | e] w1]; simpl.
      + destruct (d_close D w1) as [o w2]. simpl. right.
        exists [EInput "All done. Press Enter to close the browser...";
                EPrint "Closing browser..."].
        split; [reflexivity |]. intros [E' | [E' | []]]; discriminate.
      + left. split; [intros [E' | []]; discriminate | discriminate]. }
    destruct Hk as [[Kn Ko] | Kl].
    + left. split; [apply closed_never_app; assumption | exact Ko].
    + right. apply closed_last_app; assumption.
  - left. unfold out, emitted. simpl. split; [exact Hn | discriminate].
  - right. unfold emitted, ret. simpl. rewrite app_nil_r. exact Hl.
  - right. unfold emitted. simpl. exact Hl.
Qed.

(** X9: once the people are loaded, [main] closes the browser at most
    once, whatever the driver answers and however the run ends, and the
    close is its last call to the driver: only the stop of the driver
    process follows it.  A run of [main] that returns normally has closed
    the browser. *)
Theorem browser_is_closed_last {W R : Type} (D : Driver W) (G : Random R)
    (H : Hashing) (people : list person) (st : state W R) :
  let run := main D G H (Present (Ret people)) st in
  (closed_never (emitted run) \/
   exists pre, emitted run = (pre ++ [EClose; EStop])%list /\ closed_never pre) /\
  (out run = Ret tt ->
   exists pre, emitted run = (pre ++ [EClose; EStop])%list /\ closed_never pre).
Proof.
  intro run. subst run. unfold main.
  rewrite (bind_ret _ _ st st people []) by reflexivity.
  pose proof (main_body_closing D G H people st) as Hbody.
  cbv zeta in Hbody. revert Hbody.
  unfold with_sync_playwright.
  destruct (bind (launch D PLAYWRIGHT_HEADLESS) _ st) as [[o st1] ev].
  unfold out, final, emitted. cbn [fst snd app]. intro Hbody.
  assert (Hlast : closed_last ev ->
            exists pre, (EStart :: ev ++ [EStop])%list = (pre ++ [EClose; EStop])%list
                        /\ closed_never pre).
  { intros [pre [E Hpre]]. exists (EStart :: pre). split.
    - rewrite E, <- app_assoc. reflexivity.
    - intros [E' | Hin]; [discriminate | exact (Hpre Hin)]. }
  split.
  - destruct Hbody as [[Hn _] | Hl]; [left | right; exact (Hlast Hl)].
    intros [E | Hin]; [discriminate |].
    apply in_app_or in Hin. destruct Hin as [Hin | [E | []]];
      [exact (Hn Hin) | discriminate].
  - intro Ho. destruct Hbody as [[_ Hne] | Hl]; [contradiction | exact (Hlast Hl)].
Qed.

(** ** A loop that runs to its end *)

Lemma reports_app (a b : list event) : reports (a ++ b) = (reports a ++ reports b)%list.
Proof. unfold reports. rewrite console_app. apply filter_app. Qed.

Lemma navigations_app (a b : list event) :
  navigations (a ++ b) = (navigations a ++ navigations b)%list.
Proof. apply flat_map_app. Qed.

Lemma on_page_reports (evs : list event) :
  Forall on_page evs -> reports evs = [] /\ navigations evs = [].
Proof.
  induction 1 as [| ev evs Hev _ [IH1 IH2]]; [split; reflexivity |].
  destruct ev; try discriminate Hev; split; try assumption.
  unfold reports, untagged in *. simpl.
  unfold on_page in Hev. simpl in Hev. rewrite Hev. simpl. exact IH1.
Qed.

(** A turn that falls through to the next record: its banner, its
    navigation, page events, and its closing line. *)
Lemma process_person_normal {W R : Type} (D : Driver W) (G : Random R) (H : Hashing)
    (idx : nat) (person_data : person) (st : state W R) :
  out (process_person D G H idx person_data st) = Ret NextPerson ->
  exists mid,
    emitted (process_person D G H idx person_data st)
      = ([EPrint (banner idx); EGoto SITE_URL 30000] ++ mid
         ++ [EPrint (done_line idx)])%list /\
    Forall on_page mid.
Proof.
  intro Hout. unfold process_person in *.
  apply bind_normal in Hout. destruct Hout as [[] [_ [Hout E0]]].
  rewrite E0. clear E0.
  apply bind_normal in Hout. destruct Hout as [loaded [Hgoto [Hout E1]]].
  rewrite E1. clear E1.
  destruct loaded; cbn beta iota delta [negb] in Hout |- *;
    [| unfold ret, out in Hout; simpl in Hout; discriminate].
  rewrite (goto_normal D _ Hgoto).
  apply bind_normal in Hout. destruct Hout as [present [Hwait [Hout E2]]].
  rewrite E2. clear E2.
  destruct present; cbn beta iota delta [negb] in Hout |- *;
    [| unfold ret, out in Hout; simpl in Hout; discriminate].
  rewrite (container_normal D _ Hwait).
  apply bind_normal in Hout. destruct Hout as [[] [_ [Hout E3]]].
  rewrite E3. clear E3.
  apply bind_normal in Hout. destruct Hout as [[] [_ [Hout E4]]].
  rewrite E4. clear E4.
  apply bind_normal in Hout. destruct Hout as [[] [_ [Hout E5]]].
  rewrite E5. clear E5.
  match goal with
  | |- context [(emitted (fill_first_page D person_data ?s1) ++
                 emitted (pause D ?s2) ++ emitted (walk_pages D G H ?s3) ++ _)%list] =>
      exists (EWaitForSelector container_selector 10000
              :: emitted (fill_first_page D person_data s1)
              ++ emitted (pause D s2) ++ emitted (walk_pages D G H s3))%list;
      split;
      [| constructor; [reflexivity |];
         repeat (apply Forall_app; split);
         [apply page_fill_first_page | apply page_pause | apply page_walk_pages]]
  end.
  unfold print at 1. unfold emitted at 1. simpl.
  unfold bind at 1. unfold print, ret, emitted at 4. simpl.
  rewrite <- !app_assoc. reflexivity.
Qed.

(** X10: when the loop over the people runs to its end, every record in
    turn has been navigated to exactly once, at [SITE_URL] with the bound of
    30000 ms, and the console lines without a tag are, record after record,
    its banner and its closing line, numbered from the first index on; the
    loop has not closed the browser. *)
Theorem completed_loop_reports_each_record {W R : Type} (D : Driver W)
    (G : Random R) (H : Hashing) (people : list person) :
  forall (idx : nat) (st : state W R),
    out (people_loop D G H idx people st) = Ret NextPerson ->
    let evs := emitted (people_loop D G H idx people st) in
    reports evs
      = flat_map (fun i => [banner i; done_line i]) (seq idx (List.length people)) /\
    navigations evs = repeat (SITE_URL, 30000%Z) (List.length people) /\
    closed_never evs.
Proof.
  induction people as [| p rest IH]; intros idx st Hout evs; subst evs.
  - repeat split. intros [].
  - simpl people_loop in *.
    apply bind_normal in Hout. destruct Hout as [exit [Hp [Hout E]]].
    rewrite E. clear E.
    destruct exit; [| unfold ret, out in Hout; simpl in Hout; discriminate].
    destruct (process_person_normal D G H idx p st Hp) as [mid [Ep Hmid]].
    destruct (on_page_reports mid Hmid) as [Hr Hn].
    destruct (IH (S idx) _ Hout) as [IHr [IHn IHc]].
    rewrite reports_app, navigations_app, IHr, IHn, Ep.
    rewrite !reports_app, !navigations_app, Hr, Hn.
    split; [reflexivity |]. split; [reflexivity |].
    apply closed_never_app; [| exact IHc].
    intro Hin. simpl in Hin.
    destruct Hin as [E | [E | Hin]]; try discriminate.
    apply in_app_or in Hin. destruct Hin as [Hin | [E | []]]; [| discriminate].
    exact (on_page_closed_never mid Hmid Hin).
Qed.

Lemma completed_loop_reports_each_record_witness :
  let evs := emitted (people_loop (scripted survey) counter insertion_order 1
                        [[("element_2", PyStr "Ali")]; []]
                        {| world := 0; gen := 0 |}) in
  reports evs = [banner 1; done_line 1; banner 2; done_line 2] /\
  navigations evs = [(SITE_URL, 30000%Z); (SITE_URL, 30000%Z)] /\
  closed_never evs.
Proof.
  apply (completed_loop_reports_each_record (scripted survey) counter
           insertion_order [[("element_2", PyStr "Ali")]; []] 1
           {| world := 0; gen := 0 |}).
  vm_compute. reflexivity.
Defined.

(** ** After the last record *)

(** X11: let the browser be open and let the loop over the people have run
    to its end.  Then [main] prompts, and only when the prompt returns does
    it print the closing line and close the browser, ending as the close
    call ends.  When the prompt raises, [main] is left by that exception
    without printing the closing line and without closing the browser. *)
Theorem prompt_guards_the_close {W R : Type} (D : Driver W) (G : Random R)
    (H : Hashing) (people : list person) (start opened s : state W R)
    (evs : list event) :
  bind (launch D PLAYWRIGHT_HEADLESS) (fun _ => new_page D) start
    = (Ret tt, opened, [ELaunch PLAYWRIGHT_HEADLESS; ENewPage]) ->
  people_loop D G H 1 people opened = (Ret NextPerson, s, evs) ->
  let run := main D G H (Present (Ret people)) start in
  match d_input D prompt (world s) with
  | (Ret _, w1) =>
      emitted run
        = ([EStart; ELaunch PLAYWRIGHT_HEADLESS; ENewPage] ++ evs
           ++ [EInput prompt; EPrint "Closing browser..."; EClose; EStop])%list /\
      out run = fst (d_close D w1)
  | (Raise e, w1) =>
      emitted run
        = ([EStart; ELaunch PLAYWRIGHT_HEADLESS; ENewPage] ++ evs
           ++ [EInput prompt; EStop])%list /\
      out run = Raise e
  end.
Proof.
  intros Hopen Hloop run. subst run.
  unfold main, with_sync_playwright.
  rewrite (bind_ret _ _ start start people []) by reflexivity.
  unfold out, final, emitted. simpl.
  rewrite <- (bind_assoc (launch D PLAYWRIGHT_HEADLESS) (fun _ => new_page D)).
  rewrite (bind_ret _ _ _ _ _ _ Hopen).
  rewrite (bind_ret _ _ _ _ _ _ Hloop).
  unfold bind, input, browser_close, invoke, print, out, final, emitted, prompt.
  destruct (d_input D _ (world s)) as [[[] | e] w1]; simpl.
  - destruct (d_close D w1) as [o w2]. simpl. rewrite <- !app_assoc.
    split; reflexivity.
  - rewrite <- !app_assoc. split; reflexivity.
Qed.

Lemma prompt_guards_the_close_witness :
  let start := {| world := 0; gen := 0 |} in
  (emitted (main (scripted no_terminal) counter insertion_order (Present (Ret [])) start)
     = [EStart; ELaunch PLAYWRIGHT_HEADLESS; ENewPage; EInput prompt; EStop] /\
   out (main (scripted no_terminal) counter insertion_order (Present (Ret [])) start)
     = Raise (PyException "EOF when reading a line")) /\
  (emitted (main (scripted blank_page) counter insertion_order (Present (Ret [])) start)
     = [EStart; ELaunch PLAYWRIGHT_HEADLESS; ENewPage; EInput prompt;
        EPrint "Closing browser..."; EClose; EStop] /\
   out (main (scripted blank_page) counter insertion_order (Present (Ret [])) start)
     = Ret tt).
Proof.
  intro start. split.
  - apply (prompt_guards_the_close (scripted no_terminal) counter insertion_order
             [] start {| world := 2; gen := 0 |} {| world := 2; gen := 0 |} []);
      reflexivity.
  - apply (prompt_guards_the_close (scripted blank_page) counter insertion_order
             [] start {| world := 2; gen := 0 |} {| world := 2; gen := 0 |} []);
      reflexivity.
Defined.

(** ** Selectors *)

Lemma append_inv_head (p a b : string) : p ++ a = p ++ b -> a = b.
Proof.
  induction p as [| c p IH]; simpl; intro E; [exact E |].
  inversion E. apply IH. assumption.
Qed.

Lemma list_ascii_of_append (a b : string) :
  list_ascii_of_string (a ++ b)
  = (list_ascii_of_string a ++ list_ascii_of_string b)%list.
Proof.
  induction a as [| c a IH]; simpl; [reflexivity |]. rewrite IH. reflexivity.
Qed.

Lemma append_inv_tail (a b t : string) : a ++ t = b ++ t -> a = b.
Proof.
  intro E. apply (f_equal list_ascii_of_string) in E.
  rewrite !list_ascii_of_append in E. apply app_inv_tail in E.
  apply (f_equal string_of_list_ascii) in E.
  rewrite !string_of_list_ascii_of_string in E. exact E.
Qed.

(** X12: the selectors tell the options of a group apart: for one group
    name, two values give the same option selector only when they are the
    same value, and two ids give the same label selector only when they are
    the same id.  So the distinct values of a value set are looked up under
    as many distinct selectors. *)
Theorem selectors_tell_options_apart (name v1 v2 id1 id2 : string)
    (V : pyset) :
  (option_selector name v1 = option_selector name v2 -> v1 = v2) /\
  (label_selector id1 = label_selector id2 -> id1 = id2) /\
  (NoDup V -> NoDup (map (option_selector name) V)).
Proof.
  assert (Hopt : forall a b, option_selector name a = option_selector name b -> a = b).
  { intros a b E. unfold option_selector in E.
    repeat (apply append_inv_head in E).
    exact (append_inv_tail _ _ _ E). }
  split; [apply Hopt |]. split.
  - intro E. unfold label_selector in E.
    repeat (apply append_inv_head in E).
    exact (append_inv_tail _ _ _ E).
  - intro Hnd. induction Hnd as [| v V Hnotin _ IH]; [constructor |].
    simpl. constructor; [| exact IH].
    intro Hin. apply in_map_iff in Hin. destruct Hin as [v' [E Hv']].
    apply Hopt in E. subst v'. contradiction.
Qed.
